(** * WalletSystem: a shallow embedding of [src/wallet.py]

    The Python class [WalletSystem] keeps five dictionaries / lists and
    guards every public method with [assert] statements: preconditions
    (R1, R2, ...) before the mutation, postconditions (E1, E2, ...) after
    it.  An [assert] that fails raises [AssertionError]; whatever was
    written to [self] before the failure stays written.

    Modelling choices, all read off the source:
    - [float] is IEEE-754 binary64, here Rocq's primitive [float]
      ([PrimFloat]); an [int] literal that meets a float ([0], [1],
      [10_000], ...) is the float of the same value;
    - a [dict] is an insertion-ordered association list ([PyDict]):
      [sum(self.balances.values())] and the loop of [apply_interest] both
      depend on that order;
    - a method is a function in a state-and-exception monad [M] over the
      record [WalletSystem];
    - [uuid.uuid4()] and [time.time()] are the environment: a method that
      calls them takes an [Env], whose [uuid4 k] and [time k] are the
      values returned by the [k]-th call made during that method call;
    - [str] is Rocq's [string], read as a sequence of code points: each
      [ascii] is one code point below 256, so [String.length] is [len]
      and [isdigit] accepts what [str.isdigit()] accepts there, the
      digits [0]-[9] and the superscripts U+00B2, U+00B3, U+00B9.

    The file has two parts.  The first holds every definition: the data
    model, the methods transcribed statement by statement, the
    preconditions and effects the docstrings name, call sequences and
    sample runs.  The second holds the proofs: binary64 facts, dictionary
    facts, one lemma pair per method (rejected in place, or its effect),
    the invariants of reachable states, the claims C1-C10 and the
    further properties X1-X17. *)

From Stdlib Require Import List String Ascii Bool ZArith Lia Floats Permutation.
Import ListNotations.

Open Scope string_scope.
Open Scope list_scope.
Open Scope float_scope.

(* ================================================================== *)
(** * Floating-point constants of the source *)
(* ================================================================== *)

(** [float('inf')]. *)
Definition inf : float := infinity.
(** The literal [0.2] of [apply_interest], R1. *)
Definition rate_max : float := 0x1.999999999999ap-3.
(** The literal [1e-9], the tolerance of the balance checks. *)
Definition tol_1e9 : float := 0x1.12e0be826d695p-30.
(** The literal [1e-6], the tolerance of the interest total. *)
Definition tol_1e6 : float := 0x1.0c6f7a0b5ed8dp-20.

(** Python's comparison operators on floats. *)
Definition fgt (x y : float) : bool := y <? x.     (* x > y  *)
Definition fge (x y : float) : bool := y <=? x.    (* x >= y *)
Definition fne (x y : float) : bool := negb (x =? y). (* x != y *)

(** [sum(xs)]: left to right, starting from [0].  (CPython 3.12 and later
    compensate the rounding errors of a float sum; for at most two
    summands the result is the same.) *)
Definition py_sum (xs : list float) : float := fold_left PrimFloat.add xs 0.

(** Sign classification of the specification floats, used to reason about
    [b >= 0]. *)
Definition sf_nonneg (f : spec_float) : Prop :=
  match f with
  | S754_zero _ => True
  | S754_infinity s | S754_finite s _ _ => s = false
  | S754_nan => False
  end.

Definition sf_sign (s : bool) (f : spec_float) : Prop :=
  match f with
  | S754_zero s' | S754_infinity s' | S754_finite s' _ _ => s' = s
  | S754_nan => False
  end.

(** A finite float: neither NaN nor an infinity. *)
Definition sf_finite (f : spec_float) : Prop :=
  match f with
  | S754_zero _ | S754_finite _ _ _ => True
  | _ => False
  end.

(** The value of mantissa [m] at exponent [e], in units of [2^-1074]. *)
Definition scaled (m e : Z) : Z := (m * 2 ^ (e + 1074))%Z.

(* ================================================================== *)
(** * Python values, exceptions and dictionaries *)
(* ================================================================== *)

(** The values stored in transaction, payment-method and spending-limit
    dictionaries: [None], a [str], or a number. *)
Inductive Value : Type :=
| VNone
| VStr (s : string)
| VNum (x : float).

(** [a == b]. *)
Definition value_eq (a b : Value) : bool :=
  match a, b with
  | VNone, VNone => true
  | VStr s, VStr t => String.eqb s t
  | VNum x, VNum y => x =? y
  | _, _ => false
  end.

(** [a is b or a == b], the comparison used by [in] on lists and by [==]
    on containers; structural identity stands for object identity. *)
Definition value_same (a b : Value) : bool :=
  match a, b with
  | VNum x, VNum y => PrimFloat.Leibniz.eqb x y || (x =? y)
  | _, _ => value_eq a b
  end.

Definition of_option (o : option float) : Value :=
  match o with
  | None => VNone
  | Some x => VNum x
  end.

Inductive Exn : Type :=
| AssertionError (msg : string)
| KeyError (key : string)
| TypeError.

Inductive Res (A : Type) : Type :=
| Ok (a : A)
| Raise (e : Exn).
Arguments Ok {A} a.
Arguments Raise {A} e.

Definition rbind {A B} (r : Res A) (k : A -> Res B) : Res B :=
  match r with
  | Ok a => k a
  | Raise e => Raise e
  end.

Module PyDict.
Section Dict.
Context {V : Type}.

Definition dict : Type := list (string * V).

(** [d.get(k)] *)
Fixpoint get (d : dict) (k : string) : option V :=
  match d with
  | [] => None
  | (k', v) :: d' => if String.eqb k' k then Some v else get d' k
  end.

(** [k in d] *)
Definition contains (d : dict) (k : string) : bool :=
  match get d k with
  | Some _ => true
  | None => false
  end.

(** [d[k]] *)
Definition getitem (d : dict) (k : string) : Res V :=
  match get d k with
  | Some v => Ok v
  | None => Raise (KeyError k)
  end.

(** [d[k] = v]: in place when [k] is present, at the end otherwise. *)
Fixpoint setitem (d : dict) (k : string) (v : V) : dict :=
  match d with
  | [] => [(k, v)]
  | (k', v') :: d' =>
      if String.eqb k' k then (k', v) :: d' else (k', v') :: setitem d' k v
  end.

Definition keys (d : dict) : list string := map fst d.
Definition values (d : dict) : list V := map snd d.

(** [a == b] for dictionaries whose values are compared with [veq]. *)
Definition eqb (veq : V -> V -> bool) (a b : dict) : bool :=
  Nat.eqb (List.length a) (List.length b)
  && forallb (fun k => match get a k, get b k with
                       | Some x, Some y => veq x y
                       | _, _ => false
                       end) (keys a).
End Dict.
Arguments dict V : clear implicits.
End PyDict.

Import PyDict.

(** [len(set(ks))] *)
Fixpoint distinct (ks : list string) : list string :=
  match ks with
  | [] => []
  | k :: r => if existsb (String.eqb k) r then distinct r else k :: distinct r
  end.

(** [x in l] for a list. *)
Definition list_in {A} (same : A -> A -> bool) (x : A) (l : list A) : bool :=
  existsb (same x) l.

Fixpoint list_eqb {A} (same : A -> A -> bool) (a b : list A) : bool :=
  match a, b with
  | [], [] => true
  | x :: a', y :: b' => same x y && list_eqb same a' b'
  | _, _ => false
  end.

(** [l[-n:]]; note that [l[-0:]] is the whole list. *)
Definition tail_slice {A} (n : nat) (l : list A) : list A :=
  match n with
  | O => l
  | _ => skipn (List.length l - n) l
  end.

(** [l[start:stop]] for [0 <= start <= stop]. *)
Definition slice {A} (start stop : Z) (l : list A) : list A :=
  firstn (Z.to_nat (stop - start)) (skipn (Z.to_nat start) l).

(** String helpers: truthiness, [c in s], [s.isdigit()].  A [string] is
    read as the sequence of its code points, each below 256. *)
Definition truthy (s : string) : bool := negb (String.eqb s "").

Fixpoint has_char (c : ascii) (s : string) : bool :=
  match s with
  | EmptyString => false
  | String c' s' => Ascii.eqb c' c || has_char c s'
  end.

(** [c.isdigit()] for a code point below 256: the ASCII digits [0]-[9]
    and the superscript digits U+00B2, U+00B3 and U+00B9. *)
Definition is_digit (c : ascii) : bool :=
  let n := nat_of_ascii c in
  (Nat.leb 48 n && Nat.leb n 57)
  || Nat.eqb n 178 || Nat.eqb n 179 || Nat.eqb n 185.

Fixpoint all_digits (s : string) : bool :=
  match s with
  | EmptyString => true
  | String c s' => is_digit c && all_digits s'
  end.

Definition isdigit (s : string) : bool := truthy s && all_digits s.

(* ================================================================== *)
(** * The state of a [WalletSystem] and the monad of its methods *)
(* ================================================================== *)

(** A transaction, a payment method and a spending-limit record are all
    plain dictionaries in the source. *)
Definition Tx : Type := dict Value.
Definition Method : Type := dict Value.
Definition Limits : Type := dict Value.

Record WalletSystem : Type := mkWallet {
  balances : dict float;
  transactions : list Tx;
  user_pins : dict string;
  payment_methods : dict (list Method);
  spending_limits : dict Limits
}.

(** [WalletSystem()] *)
Definition init : WalletSystem := mkWallet [] [] [] [] [].

(** The environment of one method call. *)
Record Env : Type := mkEnv {
  uuid4 : nat -> string;
  time : nat -> float
}.

Definition M (A : Type) : Type := WalletSystem -> Res A * WalletSystem.

Definition ret {A} (a : A) : M A := fun s => (Ok a, s).

Definition bind {A B} (m : M A) (k : A -> M B) : M B :=
  fun s => match m s with
           | (Ok a, s') => k a s'
           | (Raise e, s') => (Raise e, s')
           end.

(** Evaluate an expression over [self]; it may raise, it cannot write. *)
Definition read {A} (f : WalletSystem -> Res A) : M A := fun s => (f s, s).

Definition gets {A} (f : WalletSystem -> A) : M A := fun s => (Ok (f s), s).

Definition modify (f : WalletSystem -> WalletSystem) : M unit :=
  fun s => (Ok tt, f s).

(** [assert c, msg] *)
Definition assert_ (c : bool) (msg : string) : M unit :=
  fun s => if c then (Ok tt, s) else (Raise (AssertionError msg), s).

Declare Scope py_scope.
Delimit Scope py_scope with py.
Notation "x <- m ;; k" := (bind m (fun x => k))
  (at level 61, m at next level, right associativity) : py_scope.
Notation "m ;; k" := (bind m (fun _ => k))
  (at level 61, right associativity) : py_scope.
Notation "x <-- r ;;; k" := (rbind r (fun x => k))
  (at level 61, r at next level, right associativity) : py_scope.
Open Scope py_scope.

(** The result and the state a call leaves behind. *)
Definition result_of {A} (m : M A) (s : WalletSystem) : Res A := fst (m s).
Definition state_after {A} (m : M A) (s : WalletSystem) : WalletSystem := snd (m s).

(** [self.balances[u]] *)
Definition balance_of (u : string) (s : WalletSystem) : Res float :=
  getitem (balances s) u.

(** [self.balances[u] = x] *)
Definition set_balance (u : string) (x : float) : M unit :=
  modify (fun s => mkWallet (setitem (balances s) u x) (transactions s)
                     (user_pins s) (payment_methods s) (spending_limits s)).

(** [self.transactions.append(t)] *)
Definition append_tx (t : Tx) : M unit :=
  modify (fun s => mkWallet (balances s) (transactions s ++ [t])
                     (user_pins s) (payment_methods s) (spending_limits s)).

Definition set_user_pins (p : dict string) : M unit :=
  modify (fun s => mkWallet (balances s) (transactions s) p
                     (payment_methods s) (spending_limits s)).

Definition set_payment_methods (p : dict (list Method)) : M unit :=
  modify (fun s => mkWallet (balances s) (transactions s) (user_pins s)
                     p (spending_limits s)).

Definition set_spending_limits_field (l : dict Limits) : M unit :=
  modify (fun s => mkWallet (balances s) (transactions s) (user_pins s)
                     (payment_methods s) l).

(** Field access on a dictionary of values. *)
Definition as_str_eq (v : Value) (s : string) : bool := value_eq v (VStr s).

Definition as_float (v : Value) : Res float :=
  match v with
  | VNum x => Ok x
  | _ => Raise TypeError
  end.

(** [t.get(k)], with [None] for a missing key. *)
Definition get_value (t : dict Value) (k : string) : Value :=
  match get t k with
  | Some v => v
  | None => VNone
  end.

(** [any(p(t) for t in l)] and [all(p(x) for x in l)], where [p] may raise. *)
Fixpoint any_res {A} (p : A -> Res bool) (l : list A) : Res bool :=
  match l with
  | [] => Ok false
  | x :: r => b <-- p x ;;; if b then Ok true else any_res p r
  end.

Fixpoint all_res {A} (p : A -> Res bool) (l : list A) : Res bool :=
  match l with
  | [] => Ok true
  | x :: r => b <-- p x ;;; if b then all_res p r else Ok false
  end.

(** [all(self.balances[u] == old[u] for u in old if not skip(u))] *)
Definition balances_unchanged (skip : string -> bool) (old : dict float)
    (s : WalletSystem) : Res bool :=
  all_res (fun u => if skip u then Ok true
                    else x <-- balance_of u s ;;;
                         y <-- getitem old u ;;;
                         Ok (x =? y))
          (keys old).

Definition nobody (u : string) : bool := false.

(* ================================================================== *)
(** * The methods of [WalletSystem] *)
(* ================================================================== *)

(** [verify_invariants]: the [try]/[except] turns a failed assertion into
    [False]; the [print] is not modelled. *)
Definition verify_invariants (s : WalletSystem) : bool :=
  Nat.eqb (List.length (balances s)) (List.length (distinct (keys (balances s))))
  && forallb (fun b => fge b 0) (values (balances s))
  && forallb (contains (balances s)) (keys (user_pins s))
  && forallb (contains (balances s)) (keys (payment_methods s))
  && forallb (contains (balances s)) (keys (spending_limits s)).

(** The [isinstance(_, str)] conjuncts hold by typing and are left out. *)
Definition create_account (user_id email password : string) : M unit :=
  assert_ (truthy user_id) "R1 violated: Invalid user_id" ;;
  present <- gets (fun s => contains (balances s) user_id) ;;
  assert_ (negb present) "R2 violated: User already exists" ;;
  assert_ (truthy email && has_char "@" email) "R3 violated: Invalid email" ;;
  assert_ (truthy password && Nat.leb 6 (String.length password))
          "R4 violated: Password too weak" ;;
  old_count <- gets (fun s => List.length (balances s)) ;;
  old_balances <- gets balances ;;
  set_balance user_id 0 ;;
  present <- gets (fun s => contains (balances s) user_id) ;;
  assert_ present "E1 violated" ;;
  b <- read (balance_of user_id) ;;
  assert_ (b =? 0) "E2 violated" ;;
  n <- gets (fun s => List.length (balances s)) ;;
  assert_ (Nat.eqb n (old_count + 1)) "E3 violated" ;;
  same <- read (balances_unchanged nobody old_balances) ;;
  assert_ same "E4 violated" ;;
  ok <- gets verify_invariants ;;
  assert_ ok "E5 violated: Invariants broken".

Definition set_pin (user_id pin : string) : M unit :=
  present <- gets (fun s => contains (balances s) user_id) ;;
  assert_ present "R1 violated: User must exist" ;;
  assert_ (truthy pin) "R2 violated: Invalid PIN" ;;
  assert_ (Nat.leb 4 (String.length pin) && Nat.leb (String.length pin) 8)
          "R3 violated: PIN length must be 4-8" ;;
  assert_ (isdigit pin) "R4 violated: PIN must contain only digits" ;;
  old_balances <- gets balances ;;
  pins <- gets user_pins ;;
  set_user_pins (setitem pins user_id pin) ;;
  p <- read (fun s => getitem (user_pins s) user_id) ;;
  assert_ (String.eqb p pin) "E1 violated" ;;
  same <- read (balances_unchanged nobody old_balances) ;;
  assert_ same "E2 violated" ;;
  ok <- gets verify_invariants ;;
  assert_ ok "E3 violated".

(** [expected == pin] compares [None] or a [str] with a [str]. *)
Definition authenticate_pin (user_id pin : string) : M bool :=
  present <- gets (fun s => contains (balances s) user_id) ;;
  assert_ present "R1 violated: User must exist" ;;
  assert_ true "R2 violated: Invalid PIN format" ;;
  old_pins <- gets user_pins ;;
  expected <- gets (fun s => get (user_pins s) user_id) ;;
  let result := match expected with
                | Some p => String.eqb p pin
                | None => false
                end in
  pins <- gets user_pins ;;
  assert_ (PyDict.eqb String.eqb pins old_pins) "E3 violated: State modified" ;;
  ret result.

Definition deposit_tx (env : Env) (user_id : string) (amount : float) : Tx :=
  [("id", VStr (uuid4 env 0)); ("type", VStr "deposit");
   ("user_id", VStr user_id); ("amount", VNum amount);
   ("timestamp", VNum (time env 0)); ("status", VStr "completed")].

Definition add_funds (env : Env) (user_id : string) (amount : float) : M unit :=
  present <- gets (fun s => contains (balances s) user_id) ;;
  assert_ present "R1 violated: User must exist" ;;
  assert_ (fgt amount 0) "R2 violated: Amount must be positive" ;;
  assert_ (amount <=? 1000000) "R3 violated: Amount exceeds safety limit" ;;
  b <- read (balance_of user_id) ;;
  assert_ (b + amount <? inf) "R4 violated: Overflow risk" ;;
  before <- read (balance_of user_id) ;;
  old_balances <- gets balances ;;
  old_total <- gets (fun s => py_sum (values (balances s))) ;;
  old_tx_count <- gets (fun s => List.length (transactions s)) ;;
  b <- read (balance_of user_id) ;;
  set_balance user_id (b + amount) ;;
  append_tx (deposit_tx env user_id amount) ;;
  b <- read (balance_of user_id) ;;
  assert_ (abs (b - (before + amount)) <? tol_1e9) "E1 violated" ;;
  same <- read (balances_unchanged (String.eqb user_id) old_balances) ;;
  assert_ same "E2 violated" ;;
  total <- gets (fun s => py_sum (values (balances s))) ;;
  assert_ (abs (total - (old_total + amount)) <? tol_1e9) "E3 violated" ;;
  e4 <- read (fun s =>
    any_res (fun t =>
      ty <-- getitem t "type" ;;;
      if value_eq ty (VStr "deposit") then
        u <-- getitem t "user_id" ;;;
        if value_eq u (VStr user_id) then
          a <-- getitem t "amount" ;;;
          x <-- as_float a ;;;
          Ok (abs (x - amount) <? tol_1e9)
        else Ok false
      else Ok false) (tail_slice 1 (transactions s))) ;;
  assert_ e4 "E4 violated" ;;
  n <- gets (fun s => List.length (transactions s)) ;;
  assert_ (Nat.eqb n (old_tx_count + 1)) "E5 violated" ;;
  ok <- gets verify_invariants ;;
  assert_ ok "E6 violated".

Definition withdrawal_tx (env : Env) (user_id bank_account : string)
    (amount : float) : Tx :=
  [("id", VStr (uuid4 env 0)); ("type", VStr "withdrawal");
   ("user_id", VStr user_id); ("amount", VNum amount);
   ("destination", VStr bank_account);
   ("timestamp", VNum (time env 0)); ("status", VStr "completed")].

Definition withdraw_funds (env : Env) (user_id bank_account : string)
    (amount : float) : M unit :=
  present <- gets (fun s => contains (balances s) user_id) ;;
  assert_ present "R1 violated: User must exist" ;;
  assert_ (String.prefix "PT" bank_account
           && Nat.leb 10 (String.length bank_account))
          "R2 violated: Invalid bank account" ;;
  assert_ ((0 <? amount) && (amount <=? 10000))
          "R3 violated: Invalid withdrawal amount" ;;
  b <- read (balance_of user_id) ;;
  assert_ (fge b amount) "R4 violated: Insufficient balance" ;;
  b <- read (balance_of user_id) ;;
  assert_ (fge (b - amount) 0) "R5 violated: Would result in negative balance" ;;
  before <- read (balance_of user_id) ;;
  old_balances <- gets balances ;;
  old_total <- gets (fun s => py_sum (values (balances s))) ;;
  b <- read (balance_of user_id) ;;
  set_balance user_id (b - amount) ;;
  append_tx (withdrawal_tx env user_id bank_account amount) ;;
  b <- read (balance_of user_id) ;;
  assert_ (abs (b - (before - amount)) <? tol_1e9) "E1 violated" ;;
  same <- read (balances_unchanged (String.eqb user_id) old_balances) ;;
  assert_ same "E2 violated" ;;
  total <- gets (fun s => py_sum (values (balances s))) ;;
  assert_ (abs (total - (old_total - amount)) <? tol_1e9) "E3 violated" ;;
  e4 <- read (fun s =>
    any_res (fun t =>
      ty <-- getitem t "type" ;;;
      if value_eq ty (VStr "withdrawal")
      then Ok (value_eq (get_value t "destination") (VStr bank_account))
      else Ok false) (tail_slice 1 (transactions s))) ;;
  assert_ e4 "E4 violated" ;;
  ok <- gets verify_invariants ;;
  assert_ ok "E5 violated".

Definition transfer_tx (env : Env) (sender receiver : string)
    (amount : float) : Tx :=
  [("id", VStr (uuid4 env 0)); ("type", VStr "transfer");
   ("from", VStr sender); ("to", VStr receiver); ("amount", VNum amount);
   ("timestamp", VNum (time env 0)); ("status", VStr "completed")].

Definition transfer (env : Env) (sender receiver : string) (amount : float)
    : M unit :=
  present <- gets (fun s => contains (balances s) sender
                            && contains (balances s) receiver) ;;
  assert_ present "R1 violated: Both users must exist" ;;
  assert_ (negb (String.eqb sender receiver))
          "R2 violated: Sender and receiver must be different" ;;
  assert_ (fgt amount 0) "R3 violated: Amount must be positive" ;;
  b <- read (balance_of sender) ;;
  assert_ (fge b amount) "R4 violated: Insufficient funds" ;;
  b <- read (balance_of receiver) ;;
  assert_ (b + amount <? inf) "R5 violated: Overflow risk" ;;
  old_sender <- read (balance_of sender) ;;
  old_receiver <- read (balance_of receiver) ;;
  old_balances <- gets balances ;;
  total_before <- gets (fun s => py_sum (values (balances s))) ;;
  b <- read (balance_of sender) ;;
  set_balance sender (b - amount) ;;
  b <- read (balance_of receiver) ;;
  set_balance receiver (b + amount) ;;
  append_tx (transfer_tx env sender receiver amount) ;;
  total_after <- gets (fun s => py_sum (values (balances s))) ;;
  b <- read (balance_of sender) ;;
  assert_ (abs (b - (old_sender - amount)) <? tol_1e9) "E1 violated" ;;
  b <- read (balance_of receiver) ;;
  assert_ (abs (b - (old_receiver + amount)) <? tol_1e9) "E2 violated" ;;
  same <- read (balances_unchanged
                  (fun u => String.eqb u sender || String.eqb u receiver)
                  old_balances) ;;
  assert_ same "E3 violated" ;;
  assert_ (abs (total_before - total_after) <? tol_1e9)
          "E4 violated: Total balance changed" ;;
  e5 <- read (fun s =>
    any_res (fun t =>
      ty <-- getitem t "type" ;;;
      Ok (value_eq ty (VStr "transfer")
          && value_eq (get_value t "from") (VStr sender)
          && value_eq (get_value t "to") (VStr receiver)))
      (tail_slice 1 (transactions s))) ;;
  assert_ e5 "E5 violated" ;;
  ok <- gets verify_invariants ;;
  assert_ ok "E6 violated".

Definition interest_tx (env : Env) (k : nat) (user_id : string)
    (interest : float) : Tx :=
  [("id", VStr (uuid4 env k)); ("type", VStr "interest");
   ("user_id", VStr user_id); ("amount", VNum interest);
   ("timestamp", VNum (time env k)); ("status", VStr "completed")].

(** The [for user_id in list(self.balances.keys())] loop; [k] counts the
    iterations, hence the calls of [uuid4] and [time]. *)
Fixpoint apply_interest_loop (env : Env) (rate : float) (users : list string)
    (k : nat) : M unit :=
  match users with
  | [] => ret tt
  | user_id :: rest =>
      old <- read (balance_of user_id) ;;
      let interest := old * rate in
      set_balance user_id (old + interest) ;;
      append_tx (interest_tx env k user_id interest) ;;
      apply_interest_loop env rate rest (S k)
  end.

Definition apply_interest (env : Env) (rate : float) : M unit :=
  assert_ ((0 <? rate) && (rate <=? rate_max))
          "R1 violated: Invalid interest rate" ;;
  fits <- gets (fun s => forallb (fun b => b * (1 + rate) <? inf)
                                 (values (balances s))) ;;
  assert_ fits "R2 violated: Overflow risk" ;;
  total_before <- gets (fun s => py_sum (values (balances s))) ;;
  old_balances <- gets balances ;;
  old_tx_count <- gets (fun s => List.length (transactions s)) ;;
  users <- gets (fun s => keys (balances s)) ;;
  apply_interest_loop env rate users 0 ;;
  total_after <- gets (fun s => py_sum (values (balances s))) ;;
  e1 <- read (fun s =>
    all_res (fun uid =>
      b <-- balance_of uid s ;;;
      o <-- getitem old_balances uid ;;;
      Ok (abs (b - o * (1 + rate)) <? tol_1e9)) (keys old_balances)) ;;
  assert_ e1 "E1 violated" ;;
  assert_ (abs (total_after - total_before * (1 + rate)) <? tol_1e6)
          "E2 violated" ;;
  n <- gets (fun s => List.length (transactions s)) ;;
  assert_ (Nat.eqb n (old_tx_count + List.length old_balances)) "E3 violated" ;;
  e4 <- read (fun s =>
    all_res (fun uid =>
      any_res (fun t =>
        ty <-- getitem t "type" ;;;
        if value_eq ty (VStr "interest") then
          u <-- getitem t "user_id" ;;;
          Ok (value_eq u (VStr uid))
        else Ok false)
        (tail_slice (List.length old_balances) (transactions s)))
      (keys old_balances)) ;;
  assert_ e4 "E4 violated" ;;
  ok <- gets verify_invariants ;;
  assert_ ok "E5 violated".

Definition limits_record (daily monthly : option float) : Limits :=
  [("daily", of_option daily); ("monthly", of_option monthly);
   ("daily_used", VNum 0); ("monthly_used", VNum 0)].

Definition positive_or_none (x : option float) : bool :=
  match x with
  | None => true
  | Some v => fgt v 0
  end.

Definition set_spending_limits (user_id : string)
    (daily monthly : option float) : M unit :=
  present <- gets (fun s => contains (balances s) user_id) ;;
  assert_ present "R1 violated: User must exist" ;;
  assert_ (positive_or_none daily && positive_or_none monthly)
          "R2 violated: Limits must be positive or None" ;;
  assert_ (negb match daily, monthly with
                | Some d, Some m => fgt d m
                | _, _ => false
                end)
          "R3 violated: Daily limit exceeds monthly" ;;
  old_balances <- gets balances ;;
  limits <- gets spending_limits ;;
  set_spending_limits_field
    (setitem limits user_id (limits_record daily monthly)) ;;
  v <- read (fun s => l <-- getitem (spending_limits s) user_id ;;;
                      getitem l "daily") ;;
  assert_ (value_eq v (of_option daily)) "E1 violated" ;;
  v <- read (fun s => l <-- getitem (spending_limits s) user_id ;;;
                      getitem l "monthly") ;;
  assert_ (value_eq v (of_option monthly)) "E2 violated" ;;
  v <- read (fun s => l <-- getitem (spending_limits s) user_id ;;;
                      getitem l "daily_used") ;;
  assert_ (value_eq v (VNum 0)) "E3 violated" ;;
  v <- read (fun s => l <-- getitem (spending_limits s) user_id ;;;
                      getitem l "monthly_used") ;;
  assert_ (value_eq v (VNum 0)) "E4 violated" ;;
  same <- read (balances_unchanged nobody old_balances) ;;
  assert_ same "E5 violated".

(** [a == b] on payment methods, as [in] sees them. *)
Definition method_same (a b : Method) : bool := PyDict.eqb value_same a b.

(** [self.payment_methods.get(user_id, [])] *)
Definition methods_of (user_id : string) (s : WalletSystem) : list Method :=
  match get (payment_methods s) user_id with
  | Some l => l
  | None => []
  end.

Definition payment_types : list Value :=
  [VStr "card"; VStr "bank_account"; VStr "paypal"].

Definition add_payment_method (user_id : string) (method : Method) : M unit :=
  present <- gets (fun s => contains (balances s) user_id) ;;
  assert_ present "R1 violated: User must exist" ;;
  assert_ (contains method "type") "R2 violated: Invalid payment method" ;;
  ty <- read (fun _ => getitem method "type") ;;
  assert_ (existsb (value_eq ty) payment_types)
          "R3 violated: Invalid payment type" ;;
  old_count <- gets (fun s => List.length (methods_of user_id s)) ;;
  old_balances <- gets balances ;;
  known <- gets (fun s => contains (payment_methods s) user_id) ;;
  (if known then ret tt
   else pm <- gets payment_methods ;;
        set_payment_methods (setitem pm user_id [])) ;;
  l <- read (fun s => getitem (payment_methods s) user_id) ;;
  pm <- gets payment_methods ;;
  set_payment_methods (setitem pm user_id (l ++ [method])) ;;
  known <- gets (fun s => contains (payment_methods s) user_id) ;;
  assert_ known "E1 violated" ;;
  l <- read (fun s => getitem (payment_methods s) user_id) ;;
  assert_ (list_in method_same method l) "E2 violated" ;;
  l <- read (fun s => getitem (payment_methods s) user_id) ;;
  assert_ (Nat.eqb (List.length l) (old_count + 1)) "E3 violated" ;;
  same <- read (balances_unchanged nobody old_balances) ;;
  assert_ same "E4 violated".

Definition get_payment_methods (user_id : string) : M (list Method) :=
  present <- gets (fun s => contains (balances s) user_id) ;;
  assert_ present "R1 violated: User must exist" ;;
  old_methods <- gets payment_methods ;;
  result <- gets (methods_of user_id) ;;
  pm <- gets payment_methods ;;
  assert_ (PyDict.eqb (list_eqb method_same) pm old_methods)
          "E3 violated: State modified" ;;
  ret result.

(** [t.get("user_id") == u or t.get("from") == u or t.get("to") == u] *)
Definition involves (user_id : string) (t : Tx) : bool :=
  value_eq (get_value t "user_id") (VStr user_id)
  || value_eq (get_value t "from") (VStr user_id)
  || value_eq (get_value t "to") (VStr user_id).

(** [for k, v in filters.items(): txs = [t for t in txs if t.get(k) == v]] *)
Definition apply_filters (filters : dict Value) (txs : list Tx) : list Tx :=
  fold_left (fun acc kv => filter (fun t => value_eq (get_value t (fst kv)) (snd kv)) acc)
            filters txs.

(** [t.get("timestamp", 0)]; every transaction this class writes carries a
    float under ["timestamp"]. *)
Definition timestamp (t : Tx) : float :=
  match get t "timestamp" with
  | Some (VNum x) => x
  | _ => 0
  end.

(** [txs.sort(key=..., reverse=True)]: a stable sort, largest key first.
    On keys that [>=] orders totally (no NaN) every stable sort returns
    this list. *)
Fixpoint insert_desc (t : Tx) (l : list Tx) : list Tx :=
  match l with
  | [] => [t]
  | h :: r => if timestamp h <=? timestamp t then t :: l
              else h :: insert_desc t r
  end.

Definition sort_desc (l : list Tx) : list Tx := fold_right insert_desc [] l.

(** [all(r[i].get("timestamp", 0) >= r[i+1].get("timestamp", 0) for i in ...)] *)
Fixpoint sorted_desc (l : list Tx) : bool :=
  match l with
  | [] => true
  | a :: r => match r with
              | [] => true
              | b :: _ => fge (timestamp a) (timestamp b) && sorted_desc r
              end
  end.

Definition track_transactions (user_id : string)
    (filters : option (dict Value)) (page page_size : Z) : M (list Tx) :=
  present <- gets (fun s => contains (balances s) user_id) ;;
  assert_ present "R1 violated: User must exist" ;;
  assert_ (1 <=? page)%Z "R2 violated: Page must be >= 1" ;;
  assert_ ((1 <=? page_size)%Z && (page_size <=? 100)%Z)
          "R3 violated: Invalid page size" ;;
  assert_ true "R4 violated: Invalid filters" ;;
  old_balances <- gets balances ;;
  txs <- gets (fun s => filter (involves user_id) (transactions s)) ;;
  let txs := match filters with
             | Some (kv :: f) => apply_filters (kv :: f) txs
             | _ => txs
             end in
  let txs := sort_desc txs in
  let start := ((page - 1) * page_size)%Z in
  let stop := (start + page_size)%Z in
  let result := slice start stop txs in
  assert_ (Z.of_nat (List.length result) <=? page_size)%Z "E1 violated" ;;
  assert_ (forallb (involves user_id) result) "E2 violated" ;;
  assert_ (sorted_desc result) "E3 violated" ;;
  same <- read (balances_unchanged nobody old_balances) ;;
  assert_ same "E4 violated" ;;
  ret result.

Definition update_tx (env : Env) (user_id : string) (amount : float) : Tx :=
  [("id", VStr (uuid4 env 0));
   ("type", VStr (if fgt amount 0 then "credit" else "debit"));
   ("user_id", VStr user_id); ("amount", VNum amount);
   ("timestamp", VNum (time env 0)); ("status", VStr "completed")].

Definition real_time_update (env : Env) (user_id : string) (amount : float)
    : M unit :=
  present <- gets (fun s => contains (balances s) user_id) ;;
  assert_ present "R1 violated: User must exist" ;;
  assert_ (fne amount 0) "R2 violated: Amount cannot be zero" ;;
  b <- read (balance_of user_id) ;;
  assert_ (fgt amount 0 || fge b (abs amount))
          "R3 violated: Insufficient balance for debit" ;;
  b <- read (balance_of user_id) ;;
  assert_ (fge (b + amount) 0) "R4 violated: Would result in negative balance" ;;
  before <- read (balance_of user_id) ;;
  old_balances <- gets balances ;;
  b <- read (balance_of user_id) ;;
  set_balance user_id (b + amount) ;;
  append_tx (update_tx env user_id amount) ;;
  b <- read (balance_of user_id) ;;
  assert_ (abs (b - (before + amount)) <? tol_1e9) "E1 violated" ;;
  same <- read (balances_unchanged (String.eqb user_id) old_balances) ;;
  assert_ same "E2 violated" ;;
  e3 <- read (fun s =>
    any_res (fun t =>
      ty <-- getitem t "type" ;;;
      if existsb (value_eq ty) [VStr "credit"; VStr "debit"] then
        u <-- getitem t "user_id" ;;;
        Ok (value_eq u (VStr user_id))
      else Ok false) (tail_slice 1 (transactions s))) ;;
  assert_ e3 "E3 violated" ;;
  ok <- gets verify_invariants ;;
  assert_ ok "E4 violated".

(* ================================================================== *)
(** * Preconditions and effects, as the docstrings state them *)
(* ================================================================== *)

(** For each mutating method, [*_requires] is the conjunction of its
    [requires] clauses R1, R2, ... and [*_effect] is the write it performs
    between the precondition block and the postcondition block.

    R5 of [create_account], [verify_invariants()] before the call, is a
    condition on the state and not on the arguments; the method does not
    assert it, and every state reached through the methods satisfies it
    ([run_verify_invariants] below). *)

Definition with_balances (s : WalletSystem) (b : dict float) : WalletSystem :=
  mkWallet b (transactions s) (user_pins s) (payment_methods s) (spending_limits s).

Definition with_log (s : WalletSystem) (l : list Tx) : WalletSystem :=
  mkWallet (balances s) l (user_pins s) (payment_methods s) (spending_limits s).

Definition valid_password (password : string) : bool :=
  truthy password && Nat.leb 6 (String.length password).

Definition valid_email (email : string) : bool :=
  truthy email && has_char "@" email.

Definition valid_pin (pin : string) : bool :=
  truthy pin
  && (Nat.leb 4 (String.length pin) && Nat.leb (String.length pin) 8)
  && isdigit pin.

Definition valid_bank_account (bank_account : string) : bool :=
  String.prefix "PT" bank_account && Nat.leb 10 (String.length bank_account).

Definition create_account_requires (user_id email password : string)
    (s : WalletSystem) : bool :=
  truthy user_id && negb (contains (balances s) user_id)
  && valid_email email && valid_password password.

Definition create_account_effect (user_id : string) (s : WalletSystem)
    : WalletSystem :=
  with_balances s (setitem (balances s) user_id 0).

Definition set_pin_requires (user_id pin : string) (s : WalletSystem) : bool :=
  contains (balances s) user_id && valid_pin pin.

Definition set_pin_effect (user_id pin : string) (s : WalletSystem)
    : WalletSystem :=
  mkWallet (balances s) (transactions s) (setitem (user_pins s) user_id pin)
           (payment_methods s) (spending_limits s).

Definition add_funds_requires (user_id : string) (amount : float)
    (s : WalletSystem) : bool :=
  match get (balances s) user_id with
  | Some b => fgt amount 0 && (amount <=? 1000000) && (b + amount <? inf)
  | None => false
  end.

Definition add_funds_effect (env : Env) (user_id : string) (amount : float)
    (s : WalletSystem) : WalletSystem :=
  match get (balances s) user_id with
  | Some b =>
      mkWallet (setitem (balances s) user_id (b + amount))
               (transactions s ++ [deposit_tx env user_id amount])
               (user_pins s) (payment_methods s) (spending_limits s)
  | None => s
  end.

Definition withdraw_funds_requires (user_id bank_account : string)
    (amount : float) (s : WalletSystem) : bool :=
  match get (balances s) user_id with
  | Some b =>
      valid_bank_account bank_account
      && ((0 <? amount) && (amount <=? 10000))
      && fge b amount && fge (b - amount) 0
  | None => false
  end.

Definition withdraw_funds_effect (env : Env) (user_id bank_account : string)
    (amount : float) (s : WalletSystem) : WalletSystem :=
  match get (balances s) user_id with
  | Some b =>
      mkWallet (setitem (balances s) user_id (b - amount))
               (transactions s ++ [withdrawal_tx env user_id bank_account amount])
               (user_pins s) (payment_methods s) (spending_limits s)
  | None => s
  end.

Definition transfer_requires (sender receiver : string) (amount : float)
    (s : WalletSystem) : bool :=
  match get (balances s) sender, get (balances s) receiver with
  | Some bs, Some br =>
      negb (String.eqb sender receiver) && fgt amount 0
      && fge bs amount && (br + amount <? inf)
  | _, _ => false
  end.

Definition transfer_effect (env : Env) (sender receiver : string)
    (amount : float) (s : WalletSystem) : WalletSystem :=
  match get (balances s) sender, get (balances s) receiver with
  | Some bs, Some br =>
      mkWallet (setitem (setitem (balances s) sender (bs - amount))
                        receiver (br + amount))
               (transactions s ++ [transfer_tx env sender receiver amount])
               (user_pins s) (payment_methods s) (spending_limits s)
  | _, _ => s
  end.

Definition apply_interest_requires (rate : float) (s : WalletSystem) : bool :=
  (0 <? rate) && (rate <=? rate_max)
  && forallb (fun b => b * (1 + rate) <? inf) (values (balances s)).

Definition apply_interest_effect (env : Env) (rate : float) (s : WalletSystem)
    : WalletSystem :=
  state_after (apply_interest_loop env rate (keys (balances s)) 0) s.

Definition set_spending_limits_requires (user_id : string)
    (daily monthly : option float) (s : WalletSystem) : bool :=
  contains (balances s) user_id
  && (positive_or_none daily && positive_or_none monthly)
  && negb match daily, monthly with
          | Some d, Some m => fgt d m
          | _, _ => false
          end.

Definition set_spending_limits_effect (user_id : string)
    (daily monthly : option float) (s : WalletSystem) : WalletSystem :=
  mkWallet (balances s) (transactions s) (user_pins s) (payment_methods s)
           (setitem (spending_limits s) user_id (limits_record daily monthly)).

Definition add_payment_method_requires (user_id : string) (method : Method)
    (s : WalletSystem) : bool :=
  contains (balances s) user_id
  && match get method "type" with
     | Some ty => existsb (value_eq ty) payment_types
     | None => false
     end.

Definition add_payment_method_effect (user_id : string) (method : Method)
    (s : WalletSystem) : WalletSystem :=
  mkWallet (balances s) (transactions s) (user_pins s)
           (setitem (payment_methods s) user_id (methods_of user_id s ++ [method]))
           (spending_limits s).

Definition real_time_update_requires (user_id : string) (amount : float)
    (s : WalletSystem) : bool :=
  match get (balances s) user_id with
  | Some b =>
      fne amount 0 && (fgt amount 0 || fge b (abs amount))
      && fge (b + amount) 0
  | None => false
  end.

Definition real_time_update_effect (env : Env) (user_id : string)
    (amount : float) (s : WalletSystem) : WalletSystem :=
  match get (balances s) user_id with
  | Some b =>
      mkWallet (setitem (balances s) user_id (b + amount))
               (transactions s ++ [update_tx env user_id amount])
               (user_pins s) (payment_methods s) (spending_limits s)
  | None => s
  end.

(* ================================================================== *)
(** * Sequences of public calls *)
(* ================================================================== *)

Inductive Call : Type :=
| CVerifyInvariants
| CCreateAccount (user_id email password : string)
| CSetPin (user_id pin : string)
| CAuthenticatePin (user_id pin : string)
| CAddFunds (env : Env) (user_id : string) (amount : float)
| CWithdrawFunds (env : Env) (user_id bank_account : string) (amount : float)
| CTransfer (env : Env) (sender receiver : string) (amount : float)
| CApplyInterest (env : Env) (rate : float)
| CSetSpendingLimits (user_id : string) (daily monthly : option float)
| CAddPaymentMethod (user_id : string) (method : Method)
| CGetPaymentMethods (user_id : string)
| CTrackTransactions (user_id : string) (filters : option (dict Value))
                     (page page_size : Z)
| CRealTimeUpdate (env : Env) (user_id : string) (amount : float).

(** One public call, its return value dropped. *)
Definition call (c : Call) : M unit :=
  match c with
  | CVerifyInvariants => _ <- gets verify_invariants ;; ret tt
  | CCreateAccount u e p => create_account u e p
  | CSetPin u p => set_pin u p
  | CAuthenticatePin u p => _ <- authenticate_pin u p ;; ret tt
  | CAddFunds env u a => add_funds env u a
  | CWithdrawFunds env u b a => withdraw_funds env u b a
  | CTransfer env a b x => transfer env a b x
  | CApplyInterest env r => apply_interest env r
  | CSetSpendingLimits u d m => set_spending_limits u d m
  | CAddPaymentMethod u m => add_payment_method u m
  | CGetPaymentMethods u => _ <- get_payment_methods u ;; ret tt
  | CTrackTransactions u f p ps => _ <- track_transactions u f p ps ;; ret tt
  | CRealTimeUpdate env u a => real_time_update env u a
  end.


Definition requires (c : Call) (s : WalletSystem) : bool :=
  match c with
  | CVerifyInvariants => true
  | CCreateAccount u e p => create_account_requires u e p s
  | CSetPin u p => set_pin_requires u p s
  | CAuthenticatePin u _ => contains (balances s) u
  | CAddFunds _ u a => add_funds_requires u a s
  | CWithdrawFunds _ u b a => withdraw_funds_requires u b a s
  | CTransfer _ a b x => transfer_requires a b x s
  | CApplyInterest _ r => apply_interest_requires r s
  | CSetSpendingLimits u d m => set_spending_limits_requires u d m s
  | CAddPaymentMethod u m => add_payment_method_requires u m s
  | CGetPaymentMethods u => contains (balances s) u
  | CTrackTransactions u _ p ps =>
      contains (balances s) u && (1 <=? p)%Z
      && ((1 <=? ps)%Z && (ps <=? 100)%Z)
  | CRealTimeUpdate _ u a => real_time_update_requires u a s
  end.

(** What a call writes when its precondition holds. *)
Definition effect (c : Call) (s : WalletSystem) : WalletSystem :=
  match c with
  | CCreateAccount u _ _ => create_account_effect u s
  | CSetPin u p => set_pin_effect u p s
  | CAddFunds env u a => add_funds_effect env u a s
  | CWithdrawFunds env u b a => withdraw_funds_effect env u b a s
  | CTransfer env a b x => transfer_effect env a b x s
  | CApplyInterest env r => apply_interest_effect env r s
  | CSetSpendingLimits u d m => set_spending_limits_effect u d m s
  | CAddPaymentMethod u m => add_payment_method_effect u m s
  | CRealTimeUpdate env u a => real_time_update_effect env u a s
  | _ => s
  end.

(** The transactions [apply_interest] appends, one per account, in the
    order of [self.balances]. *)
Fixpoint interest_txs (env : Env) (rate : float) (k : nat) (d : dict float)
    : list Tx :=
  match d with
  | [] => []
  | (u, b) :: r => interest_tx env k u (b * rate) :: interest_txs env rate (S k) r
  end.

(** The balances [apply_interest] leaves. *)
Definition accrue (rate : float) (d : dict float) : dict float :=
  map (fun ub => (fst ub, snd ub + snd ub * rate)) d.

(** Every value [time.time()] returned during the call is a number. *)
Definition clock_ok (c : Call) : Prop :=
  match c with
  | CAddFunds env _ _ | CWithdrawFunds env _ _ _ | CTransfer env _ _ _
  | CApplyInterest env _ | CRealTimeUpdate env _ _ =>
      forall k, (time env k =? time env k) = true
  | _ => True
  end.

Definition completed (t : Tx) : Prop := get t "status" = Some (VStr "completed").

(** Every transaction of the log carries a number as its timestamp. *)
Definition log_timed (s : WalletSystem) : Prop :=
  Forall (fun t => (timestamp t =? timestamp t) = true) (transactions s).

(** A dictionary whose keys are all accounts, as I3-I5 ask. *)
Definition keys_known {V} (d : dict V) (s : WalletSystem) : Prop :=
  forall u, In u (keys d) -> contains (balances s) u = true.

(** I1 and I3-I5 of [verify_invariants]; I2 is [non_negative]. *)
Definition keyed (s : WalletSystem) : Prop :=
  NoDup (keys (balances s))
  /\ keys_known (user_pins s) s
  /\ keys_known (payment_methods s) s
  /\ keys_known (spending_limits s) s.

(** A transaction whose timestamp is a number. *)
Definition numbered (t : Tx) : Prop := (timestamp t =? timestamp t) = true.

(** What a call may append to the log. *)
Definition written_by (c : Call) (t : Tx) : Prop :=
  completed t /\ (clock_ok c -> (timestamp t =? timestamp t) = true).

(** The state after a sequence of calls, each of which may complete or
    raise. *)
Definition run (cs : list Call) (s : WalletSystem) : WalletSystem :=
  fold_left (fun st c => state_after (call c) st) cs s.

(** I2 of [verify_invariants]. *)
Definition non_negative (s : WalletSystem) : Prop :=
  Forall (fun b => fge b 0 = true) (values (balances s)).


(* ================================================================== *)
(** * Sample runs *)
(* ================================================================== *)

(** An environment whose clock reads [t]. *)
Definition env_at (t : float) : Env := mkEnv (fun _ => "tx") (fun _ => t).
Definition env0 : Env := env_at 1000.

(** ["alice"] holds 500, ["bob"] holds 300, after one deposit each. *)
Definition two_accounts_calls : list Call :=
  [CCreateAccount "alice" "alice@example.org" "password123";
   CCreateAccount "bob" "bob@example.org" "password456";
   CAddFunds (env_at 1000) "alice" 500;
   CAddFunds (env_at 1001) "bob" 300].

Definition two_accounts : WalletSystem := run two_accounts_calls init.

(** 0.1, 0.2, 0.3 and 0.7 as Python reads the literals. *)
Definition f0_1 : float := 0x1.999999999999ap-4.
Definition f0_2 : float := 0x1.999999999999ap-3.
Definition f0_3 : float := 0x1.3333333333333p-2.
Definition f0_7 : float := 0x1.6666666666666p-1.

(** ["alice"] holds 0.3 and ["bob"] holds 0.7. *)
Definition small_accounts_calls : list Call :=
  [CCreateAccount "alice" "alice@example.org" "password123";
   CCreateAccount "bob" "bob@example.org" "password456";
   CAddFunds (env_at 1000) "alice" f0_3;
   CAddFunds (env_at 1001) "bob" f0_7].

Definition small_accounts : WalletSystem := run small_accounts_calls init.

(** ["alice"] holds 100. *)
Definition hundred_calls : list Call :=
  [CCreateAccount "alice" "alice@example.org" "password123";
   CAddFunds (env_at 1000) "alice" 100].

Definition hundred : WalletSystem := run hundred_calls init.

(** ["alice"] holds 0.1. *)
Definition dime_calls : list Call :=
  [CCreateAccount "alice" "alice@example.org" "password123";
   CAddFunds (env_at 1000) "alice" f0_1].

Definition dime : WalletSystem := run dime_calls init.

(** ["alice"] holds 1e16 and ["bob"] holds 1. *)
Definition big_calls : list Call :=
  [CCreateAccount "alice" "alice@example.org" "password123";
   CCreateAccount "bob" "bob@example.org" "password456";
   CRealTimeUpdate (env_at 1000) "alice" 10000000000000000;
   CAddFunds (env_at 1001) "bob" 1].

Definition big : WalletSystem := run big_calls init.

(** ["alice"] holds [2^53 + 2]. *)
Definition odd_calls : list Call :=
  [CCreateAccount "alice" "alice@example.org" "password123";
   CRealTimeUpdate (env_at 1000) "alice" 9007199254740994].

Definition odd : WalletSystem := run odd_calls init.

(* ================================================================== *)
(** * Three statements with exact equality *)
(* ================================================================== *)

(** Conservation under [transfer] read with exact equality: the call
    completes, the two balances move by [amount], the others stay, and
    [sum(self.balances.values())] is the same float before and after. *)
Definition transfer_exact (env : Env) (sender receiver : string)
    (amount : float) (s : WalletSystem) : Prop :=
  forall bs br,
    get (balances s) sender = Some bs ->
    get (balances s) receiver = Some br ->
    sender <> receiver ->
    fgt amount 0 = true ->
    fge bs amount = true ->
    let s' := state_after (transfer env sender receiver amount) s in
    result_of (transfer env sender receiver amount) s = Ok tt
    /\ get (balances s') sender = Some (bs - amount)
    /\ get (balances s') receiver = Some (br + amount)
    /\ (forall u, u <> sender -> u <> receiver ->
                  get (balances s') u = get (balances s) u)
    /\ py_sum (values (balances s')) = py_sum (values (balances s)).

(** [apply_interest] read with exact equality: every balance and the
    total become the old value times [1 + rate]. *)
Definition interest_exact (env : Env) (rate : float) (s : WalletSystem) : Prop :=
  (0 <? rate) = true ->
  (rate <=? rate_max) = true ->
  forallb (fun b => b * (1 + rate) <? inf) (values (balances s)) = true ->
  let s' := state_after (apply_interest env rate) s in
  result_of (apply_interest env rate) s = Ok tt
  /\ balances s' = map (fun ub => (fst ub, snd ub * (1 + rate))) (balances s)
  /\ py_sum (values (balances s')) = py_sum (values (balances s)) * (1 + rate)
  /\ transactions s' = transactions s ++ interest_txs env rate 0 (balances s).

(** A deposit followed by a withdrawal of the same amount read with
    exact equality: the balance is back at its original value. *)
Definition deposit_withdraw_exact (env1 env2 : Env) (u bank : string)
    (amount : float) (s : WalletSystem) : Prop :=
  forall b,
    get (balances s) u = Some b ->
    (0 <? amount) = true ->
    (amount <=? 10000) = true ->
    valid_bank_account bank = true ->
    let s1 := state_after (add_funds env1 u amount) s in
    let s2 := state_after (withdraw_funds env2 u bank amount) s1 in
    get (balances s2) u = Some b
    /\ List.length (transactions s2) = (List.length (transactions s) + 2)%nat.

(* ================================================================== *)
(** * Notions used by the further properties *)
(* ================================================================== *)

(** A state that some sequence of public calls produces from
    [WalletSystem()]. *)
Definition reachable (s : WalletSystem) : Prop := exists cs, s = run cs init.

(** A float that is a number: [x == x]. *)
Definition is_number (x : float) : Prop := (x =? x) = true.

(* ---------- definitions ---------- *)
(** [s] with another [spending_limits]. *)
Definition with_limits (s : WalletSystem) (l : dict Limits) : WalletSystem :=
  mkWallet (balances s) (transactions s) (user_pins s) (payment_methods s) l.

(* ---------- definitions ---------- *)
(** The amount (or rate) argument of a call that moves money. *)
Definition amount_of (c : Call) : option float :=
  match c with
  | CAddFunds _ _ a | CWithdrawFunds _ _ _ a | CTransfer _ _ _ a
  | CRealTimeUpdate _ _ a => Some a
  | CApplyInterest _ r => Some r
  | _ => None
  end.

(* ---------- definitions ---------- *)
(** The transactions [track_transactions] selects for a user, before
    sorting: the user's own, narrowed by each filter in turn. *)
Definition selected (user_id : string) (filters : option (dict Value))
    (s : WalletSystem) : list Tx :=
  match filters with
  | Some (kv :: f) =>
      apply_filters (kv :: f) (filter (involves user_id) (transactions s))
  | _ => filter (involves user_id) (transactions s)
  end.

(** The page [track_transactions] returns, [[]] if it raises. *)
Definition page_of (user_id : string) (filters : option (dict Value))
    (page_size : Z) (s : WalletSystem) (page : nat) : list Tx :=
  match result_of (track_transactions user_id filters (Z.of_nat page) page_size) s with
  | Ok r => r
  | Raise _ => []
  end.

(* ================================================================== *)
(** * Facts about binary64 arithmetic *)
(* ================================================================== *)

(** Signs of rounded results, proved on the specification floats
    ([SpecFloat]) and carried to the primitive floats through the
    correspondence of [FloatAxioms]. *)

Lemma shr_1_nonneg r : (0 <= shr_m r)%Z -> (0 <= shr_m (shr_1 r))%Z.
Proof.
  destruct r as [m r s]; simpl.
  destruct m as [|[p|p|]|[p|p|]]; simpl; lia.
Qed.

Lemma iter_shr_1_nonneg p : forall r,
  (0 <= shr_m r)%Z -> (0 <= shr_m (iter_pos shr_1 p r))%Z.
Proof.
  induction p; intros r Hr; simpl; auto using shr_1_nonneg.
Qed.

Lemma shr_nonneg r e n : (0 <= shr_m r)%Z -> (0 <= shr_m (fst (shr r e n)))%Z.
Proof.
  intros Hr. unfold shr. destruct n; simpl; auto using iter_shr_1_nonneg.
Qed.

Lemma round_nearest_even_nonneg m l : (0 <= m)%Z -> (0 <= round_nearest_even m l)%Z.
Proof.
  intros Hm. unfold round_nearest_even.
  destruct l as [|[| |]]; try destruct (Z.even m); lia.
Qed.

Lemma shr_fexp_nonneg m e l : (0 <= m)%Z -> (0 <= shr_m (fst (shr_fexp prec emax m e l)))%Z.
Proof.
  intros Hm. unfold shr_fexp. apply shr_nonneg.
  destruct l as [|[| |]]; exact Hm.
Qed.

Lemma binary_round_aux_sign sx m e l :
  (0 <= m)%Z -> sf_sign sx (binary_round_aux prec emax sx m e l).
Proof.
  intros Hm. unfold binary_round_aux.
  pose proof (shr_fexp_nonneg m e l Hm) as H1.
  destruct (shr_fexp prec emax m e l) as [mrs' e'] eqn:E1. simpl in H1.
  pose proof (shr_fexp_nonneg _ e' loc_Exact
                (round_nearest_even_nonneg _ (loc_of_shr_record mrs') H1)) as H2.
  destruct (shr_fexp prec emax _ e' loc_Exact) as [mrs'' e''] eqn:E2. simpl in H2.
  destruct (shr_m mrs'') as [|p|p]; simpl; try reflexivity; try lia.
  destruct (_ <=? _)%Z; reflexivity.
Qed.

Lemma binary_round_sign sx m e : sf_sign sx (binary_round prec emax sx m e).
Proof.
  unfold binary_round.
  destruct (shl_align m e _) as [mz ez].
  apply binary_round_aux_sign. lia.
Qed.

Lemma binary_normalize_nonneg m e : (0 <= m)%Z -> sf_nonneg (binary_normalize prec emax m e false).
Proof.
  intros Hm. destruct m as [|p|p]; simpl; try exact I; try lia.
  pose proof (binary_round_sign false p e) as H.
  destruct (binary_round prec emax false p e); simpl in *; auto.
Qed.

Lemma sf_sign_false_nonneg f : sf_sign false f -> sf_nonneg f.
Proof. destruct f; simpl; auto. Qed.

Lemma SFleb_zero_nonneg f : SFleb (S754_zero false) f = true <-> sf_nonneg f.
Proof.
  destruct f as [s|s| |s m e]; simpl; unfold SFleb; simpl;
    try destruct s; simpl; intuition congruence.
Qed.

Lemma SFadd_nonneg x y : sf_nonneg x -> sf_nonneg y -> sf_nonneg (SF64add x y).
Proof.
  unfold SF64add.
  destruct x as [sx|sx| |sx mx ex], y as [sy|sy| |sy my ey]; simpl; intros Hx Hy;
    subst; try exact I; try reflexivity; try contradiction.
  - destruct sx, sy; exact I.
  - apply binary_normalize_nonneg. simpl. lia.
Qed.


Lemma Zpos_iter_xO m d : Zpos (Pos.iter xO m d) = (Zpos m * 2 ^ Zpos d)%Z.
Proof.
  induction d as [|d IH] using Pos.peano_ind.
  - simpl. lia.
  - rewrite Pos.iter_succ, Pos2Z.inj_xO, IH, Pos2Z.inj_succ, Z.pow_succ_r by lia. lia.
Qed.

Lemma digits2_pos_bounds m :
  (2 ^ (Zpos (digits2_pos m) - 1) <= Zpos m < 2 ^ Zpos (digits2_pos m))%Z.
Proof.
  induction m as [m IH|m IH|]; simpl digits2_pos.
  - rewrite Pos2Z.inj_succ, Z.pow_succ_r by lia.
    replace (Z.succ (Zpos (digits2_pos m)) - 1)%Z with (Z.succ (Zpos (digits2_pos m) - 1))%Z by lia.
    rewrite Z.pow_succ_r by lia. lia.
  - rewrite Pos2Z.inj_succ, Z.pow_succ_r by lia.
    replace (Z.succ (Zpos (digits2_pos m)) - 1)%Z with (Z.succ (Zpos (digits2_pos m) - 1))%Z by lia.
    rewrite Z.pow_succ_r by lia. lia.
  - simpl. lia.
Qed.

Lemma valid_finite_bounds s m e :
  valid_binary (S754_finite s m e) = true ->
  (-1074 <= e)%Z /\ (Zpos (digits2_pos m) <= 53)%Z /\
  ((-1074 < e)%Z -> Zpos (digits2_pos m) = 53%Z).
Proof.
  simpl. unfold bounded, canonical_mantissa, fexp, SpecFloat.emin, prec, emax.
  intros H. apply andb_prop in H. destruct H as [H _].
  apply Z.eqb_eq in H. lia.
Qed.

Lemma shl_align_fst m e e' :
  Zpos (fst (shl_align m e e')) =
  if (e' <? e)%Z then (Zpos m * 2 ^ (e - e'))%Z else Zpos m.
Proof.
  unfold shl_align. destruct (e' - e)%Z as [|d|d] eqn:E; simpl.
  - destruct (Z.ltb_spec e' e); [lia | reflexivity].
  - destruct (Z.ltb_spec e' e); [lia | reflexivity].
  - destruct (Z.ltb_spec e' e); [| lia].
    rewrite Zpos_iter_xO. replace (e - e')%Z with (Zpos d) by lia. reflexivity.
Qed.

Lemma SFsub_nonneg sx mx ex my ey :
  valid_binary (S754_finite sx mx ex) = true ->
  valid_binary (S754_finite false my ey) = true ->
  SFleb (S754_finite false my ey) (S754_finite sx mx ex) = true ->
  sf_nonneg (SF64sub (S754_finite sx mx ex) (S754_finite false my ey)).
Proof.
  intros Vx Vy Hle.
  destruct sx; [discriminate Hle|].
  unfold SF64sub, SFsub. apply binary_normalize_nonneg.
  unfold cond_Zopp. rewrite !shl_align_fst.
  apply valid_finite_bounds in Vx, Vy.
  destruct Vx as (Hex & Hdx & Hnx), Vy as (Hey & Hdy & Hny).
  pose proof (digits2_pos_bounds mx) as Bx.
  pose proof (digits2_pos_bounds my) as By.
  unfold SFleb, SFcompare in Hle.
  destruct (Z.compare_spec ey ex) as [Heq|Hlt|Hgt]; try discriminate Hle.
  - subst ey. rewrite Z.min_id, Z.ltb_irrefl.
    change (Pos.compare_cont Eq my mx) with (Pos.compare my mx) in Hle.
    destruct (Pos.compare_spec my mx); try discriminate Hle; lia.
  - rewrite Z.min_r by lia. rewrite Z.ltb_irrefl.
    destruct (Z.ltb_spec ey ex); [|lia].
    rewrite Hnx in Bx by lia.
    assert (Zpos my < 2 ^ 53)%Z as Hmy.
    { eapply Z.lt_le_trans; [apply By|]. apply Z.pow_le_mono_r; lia. }
    assert (2 ^ 1 <= 2 ^ (ex - ey))%Z as Hp by (apply Z.pow_le_mono_r; lia).
    change (2 ^ 1)%Z with 2%Z in Hp.
    change (53 - 1)%Z with 52%Z in Bx.
    assert (2 ^ 53 = 2 * 2 ^ 52)%Z as E53 by reflexivity.
    nia.
Qed.

Lemma SFmul_nonneg x y : 
  sf_nonneg x -> sf_nonneg y ->
  (exists s m e, y = S754_finite s m e) ->
  sf_nonneg (SF64mul x y).
Proof.
  intros Hx Hy (s & m & e & ->). simpl in Hy. subst s.
  destruct x as [sx|sx| |sx mx ex]; simpl in *; subst; try exact I; try reflexivity; try contradiction.
  apply sf_sign_false_nonneg. apply binary_round_aux_sign. lia.
Qed.

Lemma SFleb_total x y :
  x <> S754_nan -> y <> S754_nan -> SFleb x y = false -> SFleb y x = true.
Proof.
  unfold SFleb, SFcompare.
  destruct x as [sx|sx| |sx mx ex], y as [sy|sy| |sy my ey]; intros Hx Hy;
    try congruence; try (destruct sx); try (destruct sy); try congruence.
  all: rewrite (Z.compare_antisym ex ey);
    change (Pos.compare_cont Eq my mx) with (Pos.compare my mx);
    change (Pos.compare_cont Eq mx my) with (Pos.compare mx my);
    rewrite (Pos.compare_antisym mx my);
    destruct (ex ?= ey)%Z; simpl; try congruence;
    destruct (Pos.compare mx my); simpl; congruence.
Qed.


Lemma Prim2SF_zero : Prim2SF 0 = S754_zero false.
Proof. reflexivity. Qed.

Lemma Prim2SF_inf : Prim2SF inf = S754_infinity false.
Proof. reflexivity. Qed.

Lemma fge_zero_nonneg x : fge x 0 = true <-> sf_nonneg (Prim2SF x).
Proof.
  unfold fge. rewrite leb_spec, Prim2SF_zero. apply SFleb_zero_nonneg.
Qed.

Lemma fgt_zero_fge x : fgt x 0 = true -> fge x 0 = true.
Proof.
  unfold fgt, fge. rewrite ltb_spec, leb_spec. unfold SFltb, SFleb.
  destruct (SFcompare (Prim2SF 0) (Prim2SF x)) as [[| |]|]; congruence.
Qed.

Lemma fge_zero_notnan x : fge x 0 = true -> (x =? x) = true.
Proof.
  rewrite fge_zero_nonneg, eqb_spec. unfold SFeqb, SFcompare.
  destruct (Prim2SF x) as [s|s| |s m e]; simpl; try tauto; intros ->; auto.
  rewrite Z.compare_refl, Pos.compare_cont_refl. reflexivity.
Qed.

(** [x >= 0] and [y >= 0] give [x + y >= 0]. *)
Lemma add_nonneg x y : fge x 0 = true -> fge y 0 = true -> fge (x + y) 0 = true.
Proof.
  rewrite !fge_zero_nonneg, add_spec. apply SFadd_nonneg.
Qed.

Lemma add_below_inf_finite x y :
  fge x 0 = true -> fge y 0 = true -> (x + y <? inf) = true ->
  sf_finite (Prim2SF y).
Proof.
  rewrite !fge_zero_nonneg, ltb_spec, add_spec, Prim2SF_inf.
  destruct (Prim2SF x) as [sx|sx| |sx mx ex], (Prim2SF y) as [sy|sy| |sy my ey];
    simpl; intros Hx Hy; subst; try tauto; try discriminate;
    try (destruct sx; discriminate).
Qed.

(** [x >= y], [y > 0] and [y] finite give [x - y >= 0]. *)
Lemma sub_nonneg x y :
  fge x y = true -> fgt y 0 = true -> sf_finite (Prim2SF y) ->
  fge (x - y) 0 = true.
Proof.
  intros Hxy Hy Hfin. apply fge_zero_nonneg. rewrite sub_spec.
  pose proof (Prim2SF_valid x) as Vx. pose proof (Prim2SF_valid y) as Vy.
  apply fgt_zero_fge in Hy as Hy'. apply fge_zero_nonneg in Hy'.
  unfold fgt in Hy. rewrite ltb_spec, Prim2SF_zero in Hy.
  unfold fge in Hxy. rewrite leb_spec in Hxy.
  destruct (Prim2SF y) as [sy|sy| |sy my ey]; simpl in Hfin, Hy'; try tauto.
  - discriminate Hy.
  - subst sy.
    destruct (Prim2SF x) as [sx|sx| |sx mx ex]; try discriminate Hxy.
    + destruct sx; [discriminate Hxy | reflexivity].
    + now apply SFsub_nonneg.
Qed.

(** [x >= 0] and [0 < y <= c] for a finite [c] give [x * y >= 0]. *)
Lemma mul_nonneg x y c :
  fge x 0 = true -> fgt y 0 = true -> (y <=? c) = true -> (c <? inf) = true ->
  fge (x * y) 0 = true.
Proof.
  intros Hx Hy Hyc Hc. apply fge_zero_nonneg. rewrite mul_spec.
  apply fge_zero_nonneg in Hx.
  apply fgt_zero_fge in Hy as Hy'. apply fge_zero_nonneg in Hy'.
  unfold fgt in Hy. rewrite ltb_spec, Prim2SF_zero in Hy.
  rewrite leb_spec in Hyc. rewrite ltb_spec, Prim2SF_inf in Hc.
  apply SFmul_nonneg; auto.
  destruct (Prim2SF y) as [sy|sy| |sy my ey]; simpl in Hy'; try tauto;
    try discriminate Hy; eauto.
  subst sy. destruct (Prim2SF c) as [sc|sc| |sc mc ec]; try discriminate Hyc.
  destruct sc; discriminate.
Qed.

(** [>=] is total on numbers. *)
Lemma leb_total x y :
  (x =? x) = true -> (y =? y) = true -> (x <=? y) = false -> (y <=? x) = true.
Proof.
  rewrite !eqb_spec, !leb_spec. intros Hx Hy. apply SFleb_total.
  - intros E. rewrite E in Hx. discriminate.
  - intros E. rewrite E in Hy. discriminate.
Qed.

(** ** Rounding is monotone: [b + a >= a] *)

Lemma shr_1_div r : (0 <= shr_m r)%Z -> shr_m (shr_1 r) = (shr_m r / 2)%Z.
Proof.
  destruct r as [m b c]; cbn [shr_m]. intros Hm. unfold shr_1.
  destruct m as [|[p|p|]|p]; cbn [shr_m]; try reflexivity; try lia.
  - rewrite Pos2Z.inj_xI. apply Z.div_unique with (r := 1%Z); lia.
  - rewrite Pos2Z.inj_xO. apply Z.div_unique with (r := 0%Z); lia.
Qed.

Lemma iter_shr_1_div p : forall r,
  (0 <= shr_m r)%Z -> shr_m (iter_pos shr_1 p r) = (shr_m r / 2 ^ Zpos p)%Z.
Proof.
  induction p as [p IH|p IH|]; intros r Hr; cbn [iter_pos].
  - rewrite IH, IH, shr_1_div by auto using shr_1_nonneg, iter_shr_1_nonneg.
    rewrite !Z.div_div by lia. f_equal.
    change 2%Z with (2 ^ 1)%Z at 1.
    rewrite <- !Z.pow_add_r by lia. f_equal. lia.
  - rewrite IH, IH by auto using iter_shr_1_nonneg.
    rewrite !Z.div_div by lia. f_equal.
    rewrite <- Z.pow_add_r by lia. f_equal. lia.
  - now apply shr_1_div.
Qed.

Lemma shr_m_of_loc m l : shr_m (shr_record_of_loc m l) = m.
Proof. destruct l as [|[| |]]; reflexivity. Qed.

Lemma pow2_pos e : (0 <= e)%Z -> (0 < 2 ^ e)%Z.
Proof. intros. apply Z.pow_pos_nonneg; lia. Qed.

Lemma pow2_split a b : (0 <= a)%Z -> (0 <= b)%Z -> (2 ^ (a + b) = 2 ^ a * 2 ^ b)%Z.
Proof. intros. apply Z.pow_add_r; lia. Qed.

(** The exponent chosen for a larger value is at least the exponent of a
    smaller canonical one. *)
Lemma fexp_mono_scaled (p ma : positive) (e ea : Z) :
  (-1074 <= e)%Z -> (-1074 <= ea)%Z ->
  fexp prec emax (Zpos (digits2_pos ma) + ea) = ea ->
  (scaled (Zpos ma) ea <= scaled (Zpos p) e)%Z ->
  (ea <= fexp prec emax (Zpos (digits2_pos p) + e))%Z.
Proof.
  intros He Hea Hcan Hle.
  pose proof (digits2_pos_bounds p) as [_ Bp].
  pose proof (digits2_pos_bounds ma) as [Ba _].
  set (d := Zpos (digits2_pos p)) in *.
  set (da := Zpos (digits2_pos ma)) in *.
  assert (da + ea <= d + e)%Z as Hd.
  { destruct (Z_lt_le_dec (d + e) (da + ea)) as [Hlt|]; [exfalso|lia].
    unfold scaled in Hle.
    assert (Zpos p * 2 ^ (e + 1074) < 2 ^ (d + e + 1074))%Z as H1.
    { replace (d + e + 1074)%Z with (d + (e + 1074))%Z by lia.
      rewrite (pow2_split d (e + 1074)) by (unfold d; lia).
      apply Z.mul_lt_mono_pos_r; [apply pow2_pos; lia | exact Bp]. }
    assert (2 ^ (da - 1 + (ea + 1074)) <= Zpos ma * 2 ^ (ea + 1074))%Z as H2.
    { rewrite (pow2_split (da - 1) (ea + 1074)) by (unfold da; lia).
      apply Z.mul_le_mono_nonneg_r; [pose proof (pow2_pos (ea + 1074)); lia | exact Ba]. }
    assert (2 ^ (d + e + 1074) <= 2 ^ (da - 1 + (ea + 1074)))%Z as H3
      by (apply Z.pow_le_mono_r; unfold d in *; lia).
    lia. }
  unfold fexp, SpecFloat.emin, prec, emax in *. lia.
Qed.

Lemma shr_fexp_lower (m e : Z) (l : location) (ma : positive) (ea : Z) :
  (0 < m)%Z -> (-1074 <= e)%Z -> (-1074 <= ea)%Z ->
  (Zpos (digits2_pos ma) <= 53)%Z ->
  fexp prec emax (Zpos (digits2_pos ma) + ea) = ea ->
  (scaled (Zpos ma) ea <= scaled m e)%Z ->
  (-1074 <= snd (shr_fexp prec emax m e l))%Z
  /\ (scaled (Zpos ma) ea
      <= scaled (shr_m (fst (shr_fexp prec emax m e l)))
                (snd (shr_fexp prec emax m e l)))%Z.
Proof.
  intros Hm He Hea Hda Hcan Hle.
  destruct m as [|p|p]; try lia.
  pose proof (fexp_mono_scaled p ma e ea He Hea Hcan Hle) as Hf.
  unfold shr_fexp, shr. cbn [Zdigits2].
  set (d := Zpos (digits2_pos p)) in *.
  set (f1 := fexp prec emax (d + e)) in *.
  destruct (f1 - e)%Z as [|q|q] eqn:En; cbn [fst snd];
    rewrite ?shr_m_of_loc; try (split; [lia | exact Hle]).
  rewrite iter_shr_1_div by (rewrite shr_m_of_loc; lia).
  rewrite shr_m_of_loc.
  assert (e + Zpos q = f1)%Z as Ee by lia. rewrite Ee.
  split; [lia|].
  pose proof (digits2_pos_bounds p) as [Bp _]. fold d in Bp.
  pose proof (digits2_pos_bounds ma) as [_ Ba].
  unfold scaled in *.
  assert (0 < 2 ^ Zpos q)%Z as Hq by (apply pow2_pos; lia).
  assert (0 < 2 ^ (e + 1074))%Z as Hpe by (apply pow2_pos; lia).
  assert (0 < 2 ^ (ea + 1074))%Z as Hpa by (apply pow2_pos; lia).
  destruct (Z.eq_dec f1 ea) as [Heq|Hne].
  - rewrite Heq.
    apply Z.mul_le_mono_nonneg_r; [lia|].
    apply Z.div_le_lower_bound; [lia|].
    replace (ea + 1074)%Z with (Zpos q + (e + 1074))%Z in Hle by lia.
    rewrite (pow2_split (Zpos q) (e + 1074)) in Hle by lia.
    rewrite Z.mul_assoc in Hle.
    apply Z.mul_le_mono_pos_r in Hle; lia.
  - assert (f1 = d + e - 53)%Z as Ef
      by (unfold f1, fexp, SpecFloat.emin, prec, emax in *; lia).
    assert (Zpos q = d - 53)%Z as Eq' by lia.
    assert (2 ^ 52 <= Zpos p / 2 ^ Zpos q)%Z as Hdiv.
    { apply Z.div_le_lower_bound; [lia|].
      rewrite <- (pow2_split (Zpos q) 52) by lia.
      replace (Zpos q + 52)%Z with (d - 1)%Z by lia. exact Bp. }
    assert (Zpos ma < 2 ^ 53)%Z as Hma.
    { eapply Z.lt_le_trans; [exact Ba|]. apply Z.pow_le_mono_r; lia. }
    assert (2 ^ (ea + 1 + 1074) <= 2 ^ (f1 + 1074))%Z as Hpow
      by (apply Z.pow_le_mono_r; lia).
    replace (ea + 1 + 1074)%Z with (1 + (ea + 1074))%Z in Hpow by lia.
    rewrite (pow2_split 1 (ea + 1074)) in Hpow by lia.
    change (2 ^ 1)%Z with 2%Z in Hpow.
    assert (2 ^ 53 = 2 * 2 ^ 52)%Z as E53 by reflexivity.
    assert (0 < 2 ^ 52)%Z as H52 by reflexivity.
    nia.
Qed.

Lemma round_nearest_even_ge m l : (m <= round_nearest_even m l)%Z.
Proof.
  unfold round_nearest_even.
  destruct l as [|[| |]]; try destruct (Z.even m); lia.
Qed.

Lemma scaled_mono m m' e : (-1074 <= e)%Z -> (m <= m')%Z -> (scaled m e <= scaled m' e)%Z.
Proof.
  intros He Hm. unfold scaled.
  apply Z.mul_le_mono_nonneg_r; [pose proof (pow2_pos (e + 1074)); lia | exact Hm].
Qed.

Lemma scaled_pos m e : (-1074 <= e)%Z -> (0 < scaled m e)%Z -> (0 < m)%Z.
Proof.
  intros He H. unfold scaled in H.
  pose proof (pow2_pos (e + 1074)). nia.
Qed.

Lemma scaled_Zpos m e : (-1074 <= e)%Z -> (0 < scaled (Zpos m) e)%Z.
Proof. intros He. unfold scaled. pose proof (pow2_pos (e + 1074)). nia. Qed.

(** Rounding a positive value never goes below a canonical float that is
    not larger than the value. *)
Lemma binary_round_aux_lower (m e : Z) (l : location) (ma : positive) (ea : Z) :
  (0 < m)%Z -> (-1074 <= e)%Z -> (-1074 <= ea)%Z ->
  (Zpos (digits2_pos ma) <= 53)%Z ->
  fexp prec emax (Zpos (digits2_pos ma) + ea) = ea ->
  (scaled (Zpos ma) ea <= scaled m e)%Z ->
  binary_round_aux prec emax false m e l = S754_infinity false
  \/ exists mr er,
       binary_round_aux prec emax false m e l = S754_finite false mr er
       /\ (scaled (Zpos ma) ea <= scaled (Zpos mr) er)%Z.
Proof.
  intros Hm He Hea Hda Hcan Hle.
  pose proof (scaled_Zpos ma ea Hea) as Hapos.
  unfold binary_round_aux.
  destruct (shr_fexp_lower m e l ma ea Hm He Hea Hda Hcan Hle) as [He1 H1].
  destruct (shr_fexp prec emax m e l) as [mrs' e'] eqn:E1. cbn [fst snd] in *.
  set (m'' := round_nearest_even (shr_m mrs') (loc_of_shr_record mrs')).
  assert (scaled (Zpos ma) ea <= scaled m'' e')%Z as H2.
  { eapply Z.le_trans; [exact H1|]. apply scaled_mono; auto.
    apply round_nearest_even_ge. }
  assert (0 < m'')%Z as Hm'' by (apply (scaled_pos m'' e'); lia).
  destruct (shr_fexp_lower m'' e' loc_Exact ma ea Hm'' He1 Hea Hda Hcan H2)
    as [He2 H3].
  destruct (shr_fexp prec emax m'' e' loc_Exact) as [mrs'' e''] eqn:E2.
  cbn [fst snd] in *.
  destruct (shr_m mrs'') as [|mr|mr].
  - unfold scaled in H3. lia.
  - destruct (_ <=? _)%Z; [right; eauto | left; reflexivity].
  - unfold scaled in H3. pose proof (pow2_pos (e'' + 1074)). nia.
Qed.

Lemma shl_align_snd m e e' :
  snd (shl_align m e e') = if (e' <? e)%Z then e' else e.
Proof.
  unfold shl_align. destruct (e' - e)%Z as [|d|d] eqn:E; cbn [snd];
    destruct (Z.ltb_spec e' e); lia.
Qed.

Lemma binary_round_lower (m : positive) (e : Z) (ma : positive) (ea : Z) :
  (-1074 <= e)%Z -> (-1074 <= ea)%Z ->
  (Zpos (digits2_pos ma) <= 53)%Z ->
  fexp prec emax (Zpos (digits2_pos ma) + ea) = ea ->
  (scaled (Zpos ma) ea <= scaled (Zpos m) e)%Z ->
  binary_round prec emax false m e = S754_infinity false
  \/ exists mr er,
       binary_round prec emax false m e = S754_finite false mr er
       /\ (scaled (Zpos ma) ea <= scaled (Zpos mr) er)%Z.
Proof.
  intros He Hea Hda Hcan Hle. unfold binary_round.
  set (f := fexp prec emax (Zpos (digits2_pos m) + e)).
  pose proof (shl_align_fst m e f) as Hfst.
  pose proof (shl_align_snd m e f) as Hsnd.
  destruct (shl_align m e f) as [mz ez]. cbn [fst snd] in *.
  assert (-1074 <= f)%Z as Hf
    by (unfold f, fexp, SpecFloat.emin, prec, emax; lia).
  apply binary_round_aux_lower; auto; try lia.
  - destruct (f <? e)%Z; lia.
  - eapply Z.le_trans; [exact Hle|]. apply Z.eq_le_incl.
    unfold scaled. rewrite Hfst, Hsnd.
    destruct (Z.ltb_spec f e); [|reflexivity].
    rewrite <- Z.mul_assoc. f_equal.
    rewrite <- pow2_split by lia. f_equal. lia.
Qed.

(** On valid positive floats the comparison agrees with the values. *)
Lemma SFleb_of_scaled ma ea mr er :
  valid_binary (S754_finite false ma ea) = true ->
  valid_binary (S754_finite false mr er) = true ->
  (scaled (Zpos ma) ea <= scaled (Zpos mr) er)%Z ->
  SFleb (S754_finite false ma ea) (S754_finite false mr er) = true.
Proof.
  intros Va Vr Hle.
  apply valid_finite_bounds in Va, Vr.
  destruct Va as (Hea & Hda & Hna), Vr as (Her & Hdr & Hnr).
  pose proof (digits2_pos_bounds ma) as [Ba _].
  pose proof (digits2_pos_bounds mr) as [_ Br].
  unfold SFleb, SFcompare, scaled in *.
  destruct (Z.compare_spec ea er) as [Heq|Hlt|Hgt]; try reflexivity.
  - subst er.
    change (Pos.compare_cont Eq ma mr) with (Pos.compare ma mr).
    destruct (Pos.compare_spec ma mr) as [|?|Hgt]; try reflexivity.
    exfalso. pose proof (pow2_pos (ea + 1074)). nia.
  - exfalso.
    rewrite Hna in Ba by lia. change (53 - 1)%Z with 52%Z in Ba.
    assert (Zpos mr < 2 ^ 53)%Z as Hmr.
    { eapply Z.lt_le_trans; [exact Br|]. apply Z.pow_le_mono_r; lia. }
    assert (2 ^ (1 + (er + 1074)) <= 2 ^ (ea + 1074))%Z as Hpow
      by (apply Z.pow_le_mono_r; lia).
    rewrite (pow2_split 1 (er + 1074)) in Hpow by lia.
    change (2 ^ 1)%Z with 2%Z in Hpow.
    pose proof (pow2_pos (er + 1074)).
    assert (2 ^ 53 = 2 * 2 ^ 52)%Z as E53 by reflexivity.
    assert (0 < 2 ^ 52)%Z as H52 by reflexivity.
    nia.
Qed.

Lemma SFleb_refl_finite s m e :
  SFleb (S754_finite s m e) (S754_finite s m e) = true.
Proof.
  unfold SFleb, SFcompare. rewrite Z.compare_refl, Pos.compare_cont_refl.
  destruct s; reflexivity.
Qed.

Lemma SFadd_ge_right mb eb ma ea :
  valid_binary (S754_finite false mb eb) = true ->
  valid_binary (S754_finite false ma ea) = true ->
  valid_binary (SF64add (S754_finite false mb eb) (S754_finite false ma ea)) = true ->
  SFleb (S754_finite false ma ea)
        (SF64add (S754_finite false mb eb) (S754_finite false ma ea)) = true.
Proof.
  intros Vb Va Vr.
  pose proof (valid_finite_bounds _ _ _ Vb) as (Heb & _ & _).
  pose proof (valid_finite_bounds _ _ _ Va) as (Hea & Hda & _).
  assert (fexp prec emax (Zpos (digits2_pos ma) + ea) = ea) as Hcan.
  { simpl in Va. unfold bounded, canonical_mantissa in Va.
    apply andb_prop in Va. destruct Va as [Va _]. now apply Z.eqb_eq in Va. }
  revert Vr. unfold SF64add, SFadd. cbn [cond_Zopp].
  rewrite !shl_align_fst.
  set (ez := Z.min eb ea).
  set (M := (_ + _)%Z).
  assert (exists p, M = Zpos p /\ (scaled (Zpos ma) ea <= scaled (Zpos p) ez)%Z)
    as (p & -> & Hle).
  { unfold M, scaled.
    assert (0 < 2 ^ (ez + 1074))%Z by (apply pow2_pos; unfold ez; lia).
    destruct (Z.ltb_spec ez eb), (Z.ltb_spec ez ea).
    - unfold ez in *. lia.
    - assert (ez = ea) as -> by (unfold ez in *; lia).
      assert (0 < 2 ^ (eb - ea))%Z by (apply pow2_pos; lia).
      destruct (Zpos mb * 2 ^ (eb - ea) + Zpos ma)%Z as [|p|p] eqn:Ep; try lia.
      exists p. split; [reflexivity|]. nia.
    - assert (ez = eb) as -> by (unfold ez in *; lia).
      assert (0 < 2 ^ (ea - eb))%Z by (apply pow2_pos; lia).
      destruct (Zpos mb + Zpos ma * 2 ^ (ea - eb))%Z as [|p|p] eqn:Ep; try lia.
      exists p. split; [reflexivity|].
      replace (ea + 1074)%Z with ((ea - eb) + (eb + 1074))%Z by lia.
      rewrite (pow2_split (ea - eb) (eb + 1074)) by lia. nia.
    - assert (ez = ea) as -> by (unfold ez in *; lia).
      destruct (Zpos mb + Zpos ma)%Z as [|p|p] eqn:Ep; try lia.
      exists p. split; [reflexivity|]. nia. }
  cbn [binary_normalize].
  destruct (binary_round_lower p ez ma ea) as [->|(mr & er & -> & Hr)];
    auto; try (unfold ez; lia).
  intros Vr. now apply SFleb_of_scaled.
Qed.

(** [b >= 0] and a finite [a > 0] give [b + a >= a]. *)
Lemma add_ge_right b a :
  fge b 0 = true -> fgt a 0 = true -> sf_finite (Prim2SF a) ->
  fge (b + a) a = true.
Proof.
  intros Hb Ha Hfin. unfold fge. rewrite leb_spec, add_spec.
  pose proof (Prim2SF_valid b) as Vb. pose proof (Prim2SF_valid a) as Va.
  pose proof (Prim2SF_valid (b + a)) as Vr. rewrite add_spec in Vr.
  apply fge_zero_nonneg in Hb.
  apply fgt_zero_fge in Ha as Ha'. apply fge_zero_nonneg in Ha'.
  unfold fgt in Ha. rewrite ltb_spec, Prim2SF_zero in Ha.
  destruct (Prim2SF a) as [sa|sa| |sa ma ea]; simpl in Hfin, Ha'; try tauto.
  - discriminate Ha.
  - subst sa.
    destruct (Prim2SF b) as [sb|sb| |sb mb eb]; simpl in Hb; try tauto.
    + apply SFleb_refl_finite.
    + subst sb. reflexivity.
    + subst sb. now apply SFadd_ge_right.
Qed.

(* ================================================================== *)
(** * Facts about dictionaries *)
(* ================================================================== *)

Section DictFacts.
Context {V : Type}.
Implicit Types (d : dict V) (k : string) (v : V).

Lemma get_setitem_same d k v : get (setitem d k v) k = Some v.
Proof.
  induction d as [|[k' v'] d IH]; simpl.
  - now rewrite String.eqb_refl.
  - destruct (String.eqb k' k) eqn:E; simpl; now rewrite E.
Qed.

Lemma get_setitem_other d k k' v :
  k <> k' -> get (setitem d k v) k' = get d k'.
Proof.
  intros Hne. induction d as [|[k0 v0] d IH]; simpl.
  - destruct (String.eqb_spec k k'); congruence.
  - destruct (String.eqb_spec k0 k); simpl.
    + subst k0. destruct (String.eqb_spec k k'); congruence.
    + now rewrite IH.
Qed.

Lemma get_In d k v : get d k = Some v -> In v (values d).
Proof.
  induction d as [|[k' v'] d IH]; simpl; [discriminate|].
  destruct (String.eqb k' k); [intros [= ->]; auto | auto].
Qed.

Lemma get_of_key d k : In k (keys d) -> exists v, get d k = Some v.
Proof.
  induction d as [|[k' v'] d IH]; simpl; [tauto|].
  intros [->|Hin].
  - rewrite String.eqb_refl. eauto.
  - destruct (String.eqb k' k); eauto.
Qed.

Lemma get_None_not_key d k : get d k = None -> ~ In k (keys d).
Proof.
  intros Hg Hin. apply get_of_key in Hin. destruct Hin as [v Hv]. congruence.
Qed.

(** Writing a value that satisfies [P] keeps [P] on all values. *)
Lemma Forall_values_setitem (P : V -> Prop) d k v :
  Forall P (values d) -> P v -> Forall P (values (setitem d k v)).
Proof.
  intros Hd Hv. induction d as [|[k' v'] d IH]; simpl.
  - constructor; auto.
  - inversion Hd; subst. destruct (String.eqb k' k); simpl; constructor; auto.
Qed.

(** A key that is present keeps its place: the keys do not change. *)
Lemma keys_setitem_present d k v :
  contains d k = true -> keys (setitem d k v) = keys d.
Proof.
  unfold contains. induction d as [|[k' v'] d IH]; simpl; [discriminate|].
  destruct (String.eqb k' k) eqn:E; simpl; [reflexivity|].
  intros H. now rewrite IH.
Qed.

Lemma setitem_setitem_same d k v v' :
  setitem (setitem d k v) k v' = setitem d k v'.
Proof.
  induction d as [|[k' w] d IH]; simpl.
  - now rewrite String.eqb_refl.
  - destruct (String.eqb k' k) eqn:E; simpl; rewrite E; [reflexivity|].
    now rewrite IH.
Qed.

Lemma eqb_refl (veq : V -> V -> bool) d :
  (forall v, In v (values d) -> veq v v = true) -> PyDict.eqb veq d d = true.
Proof.
  intros Hv. unfold PyDict.eqb. rewrite Nat.eqb_refl. simpl.
  apply forallb_forall. intros k Hk.
  destruct (get_of_key d k Hk) as [v Hg]. rewrite Hg.
  apply Hv. eapply get_In; eauto.
Qed.
End DictFacts.

Lemma value_same_refl v : value_same v v = true.
Proof.
  destruct v as [|s|x]; simpl; auto using String.eqb_refl.
  apply orb_true_iff. left. now apply Leibniz.eqb_spec.
Qed.

Lemma method_same_refl m : method_same m m = true.
Proof. apply eqb_refl. intros; apply value_same_refl. Qed.

Lemma list_eqb_refl {A} (same : A -> A -> bool) (l : list A) :
  (forall x, same x x = true) -> list_eqb same l l = true.
Proof. intros H. induction l; simpl; auto. now rewrite H, IHl. Qed.

(* ================================================================== *)
(** * Stepping through a method *)
(* ================================================================== *)

Lemma bind_gets {A B} (f : WalletSystem -> A) (k : A -> M B) s :
  bind (gets f) k s = k (f s) s.
Proof. reflexivity. Qed.

Lemma bind_read {A B} (f : WalletSystem -> Res A) (k : A -> M B) s :
  bind (read f) k s = match f s with Ok a => k a s | Raise e => (Raise e, s) end.
Proof. unfold bind, read. destruct (f s); reflexivity. Qed.

Lemma bind_modify {B} f (k : unit -> M B) s : bind (modify f) k s = k tt (f s).
Proof. reflexivity. Qed.

Lemma bind_assert {B} c msg (k : unit -> M B) s :
  bind (assert_ c msg) k s
  = if c then k tt s else (Raise (AssertionError msg), s).
Proof. unfold bind, assert_. destruct c; reflexivity. Qed.

Lemma bind_ret {A B} (a : A) (k : A -> M B) s : bind (ret a) k s = k a s.
Proof. reflexivity. Qed.

Lemma bind_bind {A B C} (m : M A) (f : A -> M B) (g : B -> M C) s :
  bind (bind m f) g s = bind m (fun a => bind (f a) g) s.
Proof. unfold bind. destruct (m s) as [[a|e] s']; reflexivity. Qed.

Ltac mstep :=
  first [ rewrite bind_gets | rewrite bind_modify | rewrite bind_assert
        | rewrite bind_read | rewrite bind_ret ]; cbv beta.

Ltac known :=
  match goal with
  | H : ?c = true |- context [?c] => rewrite H
  | H : ?c = false |- context [?c] => rewrite H
  | H : get ?d ?k = _ |- context [get ?d ?k] => rewrite H
  end.

Ltac split_and :=
  repeat match goal with
  | H : _ && _ = true |- _ => apply andb_prop in H; destruct H
  end.

Ltac proj :=
  cbn [balances transactions user_pins payment_methods spending_limits].

Ltac mrun :=
  unfold set_balance, append_tx, set_user_pins, set_payment_methods,
         set_spending_limits_field;
  repeat first [ mstep | known | rewrite get_setitem_same
               | progress proj
               | progress cbn [andb orb negb]
               | progress cbv beta iota delta [balance_of getitem contains] ].

(** Precondition block: each failed check ends the call in the entry state. *)
Ltac mpre H :=
  cbv beta iota delta [contains getitem balance_of] in H;
  repeat (mrun;
          lazymatch goal with
          | |- exists _, (if ?c then _ else _) = _ =>
              let Hc := fresh "Hc" in
              destruct c eqn:Hc;
              [ rewrite ?Hc in H; cbn [andb orb negb] in H;
                try discriminate H
              | eexists; reflexivity ]
          | |- exists _, (_, _) = _ => eexists; reflexivity
          end).

(** Postcondition block: whatever the checks say, the state is the same. *)
Ltac mpost :=
  repeat (mrun;
          lazymatch goal with
          | |- snd (assert_ ?c ?m ?s) = _ => destruct c; reflexivity
          | |- snd (ret _ _) = _ => reflexivity
          | |- snd (if ?c then _ else _) = _ => destruct c eqn:?
          | |- snd (match ?x with Ok _ => _ | Raise _ => _ end) = _ =>
              destruct x eqn:?
          | |- snd (_, _) = _ => reflexivity
          end).

(** A call that completed passed every check on the way. *)
Ltac mok :=
  repeat (mrun;
          lazymatch goal with
          | |- fst (assert_ ?c ?m ?s) = _ -> _ =>
              unfold assert_; destruct c eqn:?; [|intros; discriminate]
          | |- fst (if ?c then _ else _) = _ -> _ =>
              destruct c eqn:?; [|intros; discriminate]
          | |- fst (match ?x with Ok _ => _ | Raise _ => _ end) = _ -> _ =>
              destruct x eqn:?; [|intros; discriminate]
          end).

(* ================================================================== *)
(** * Each method: rejected in place, or its effect *)
(* ================================================================== *)

Lemma create_account_rejects u e p s :
  create_account_requires u e p s = false ->
  exists msg, create_account u e p s = (Raise (AssertionError msg), s).
Proof.
  unfold create_account_requires, create_account, valid_email, valid_password.
  intros H. mpre H.
Qed.

Lemma create_account_state u e p s :
  create_account_requires u e p s = true ->
  state_after (create_account u e p) s = create_account_effect u s.
Proof.
  unfold create_account_requires, create_account_effect, create_account,
    state_after, valid_email, valid_password, with_balances.
  intros H. split_and. mpost.
Qed.

Lemma set_pin_rejects u p s :
  set_pin_requires u p s = false ->
  exists msg, set_pin u p s = (Raise (AssertionError msg), s).
Proof.
  unfold set_pin_requires, set_pin, valid_pin.
  intros H. mpre H.
Qed.

Lemma set_pin_state u p s :
  set_pin_requires u p s = true ->
  state_after (set_pin u p) s = set_pin_effect u p s.
Proof.
  unfold set_pin_requires, set_pin_effect, set_pin, state_after, valid_pin.
  intros H. split_and. mpost.
Qed.

(** [set_pin] accepts the superscript digits, as [str.isdigit()] does: a
    PIN of four U+00B2 passes R1-R4 and is stored. *)
Example set_pin_accepts_superscript_digits :
  let two := ascii_of_nat 178 in
  let pin := String two (String two (String two (String two EmptyString))) in
  set_pin_requires "alice" pin two_accounts = true
  /\ result_of (set_pin "alice" pin) two_accounts = Ok tt
  /\ get (user_pins (state_after (set_pin "alice" pin) two_accounts)) "alice"
     = Some pin.
Proof. repeat split; reflexivity. Qed.

Lemma add_funds_rejects env u a s :
  add_funds_requires u a s = false ->
  exists msg, add_funds env u a s = (Raise (AssertionError msg), s).
Proof.
  unfold add_funds_requires, add_funds.
  intros H. destruct (get (balances s) u) as [b|] eqn:Hb; mpre H.
Qed.

Lemma add_funds_state env u a s :
  add_funds_requires u a s = true ->
  state_after (add_funds env u a) s = add_funds_effect env u a s.
Proof.
  unfold add_funds_requires, add_funds_effect, add_funds, state_after.
  destruct (get (balances s) u) as [b|] eqn:Hb; [|discriminate].
  intros H. split_and. mpost.
Qed.

Lemma withdraw_funds_rejects env u bank a s :
  withdraw_funds_requires u bank a s = false ->
  exists msg, withdraw_funds env u bank a s = (Raise (AssertionError msg), s).
Proof.
  unfold withdraw_funds_requires, withdraw_funds, valid_bank_account.
  intros H. destruct (get (balances s) u) as [b|] eqn:Hb; mpre H.
Qed.

Lemma withdraw_funds_state env u bank a s :
  withdraw_funds_requires u bank a s = true ->
  state_after (withdraw_funds env u bank a) s
  = withdraw_funds_effect env u bank a s.
Proof.
  unfold withdraw_funds_requires, withdraw_funds_effect, withdraw_funds,
    state_after, valid_bank_account.
  destruct (get (balances s) u) as [b|] eqn:Hb; [|discriminate].
  intros H. split_and. mpost.
Qed.

Lemma real_time_update_rejects env u a s :
  real_time_update_requires u a s = false ->
  exists msg, real_time_update env u a s = (Raise (AssertionError msg), s).
Proof.
  unfold real_time_update_requires, real_time_update.
  intros H. destruct (get (balances s) u) as [b|] eqn:Hb; mpre H.
Qed.

Lemma real_time_update_state env u a s :
  real_time_update_requires u a s = true ->
  state_after (real_time_update env u a) s = real_time_update_effect env u a s.
Proof.
  unfold real_time_update_requires, real_time_update_effect, real_time_update,
    state_after.
  destruct (get (balances s) u) as [b|] eqn:Hb; [|discriminate].
  intros H. split_and. mpost.
Qed.

Lemma transfer_rejects env a b x s :
  transfer_requires a b x s = false ->
  exists msg, transfer env a b x s = (Raise (AssertionError msg), s).
Proof.
  unfold transfer_requires, transfer.
  intros H.
  destruct (get (balances s) a) as [ba|] eqn:Ha;
    destruct (get (balances s) b) as [bb|] eqn:Hb; mpre H.
Qed.

Lemma transfer_state env a b x s :
  transfer_requires a b x s = true ->
  state_after (transfer env a b x) s = transfer_effect env a b x s.
Proof.
  unfold transfer_requires, transfer_effect, transfer, state_after.
  destruct (get (balances s) a) as [ba|] eqn:Ha; [|discriminate].
  destruct (get (balances s) b) as [bb|] eqn:Hb; [|discriminate].
  intros H. split_and.
  assert (a <> b) as Hne.
  { intros ->. rewrite String.eqb_refl in *. discriminate. }
  mrun. rewrite (get_setitem_other _ a b) by exact Hne. mpost.
Qed.

Lemma set_spending_limits_rejects u d m s :
  set_spending_limits_requires u d m s = false ->
  exists msg, set_spending_limits u d m s = (Raise (AssertionError msg), s).
Proof.
  unfold set_spending_limits_requires, set_spending_limits.
  intros H. mpre H.
Qed.

Lemma set_spending_limits_state u d m s :
  set_spending_limits_requires u d m s = true ->
  state_after (set_spending_limits u d m) s = set_spending_limits_effect u d m s.
Proof.
  unfold set_spending_limits_requires, set_spending_limits_effect,
    set_spending_limits, state_after.
  intros H. split_and. mpost.
Qed.

Lemma add_payment_method_rejects u m s :
  add_payment_method_requires u m s = false ->
  exists msg, add_payment_method u m s = (Raise (AssertionError msg), s).
Proof.
  unfold add_payment_method_requires, add_payment_method.
  intros H. destruct (get m "type") as [ty|] eqn:Hty; mpre H.
Qed.

Lemma add_payment_method_state u m s :
  add_payment_method_requires u m s = true ->
  state_after (add_payment_method u m) s = add_payment_method_effect u m s.
Proof.
  unfold add_payment_method_requires, add_payment_method_effect,
    add_payment_method, state_after, methods_of.
  destruct (get m "type") as [ty|] eqn:Hty;
    [|rewrite andb_false_r; discriminate].
  intros H. split_and.
  destruct (get (payment_methods s) u) as [l|] eqn:Hpm.
  - mpost.
  - mrun. rewrite bind_bind. mrun. rewrite setitem_setitem_same. mpost.
Qed.

Lemma apply_interest_rejects env r s :
  apply_interest_requires r s = false ->
  exists msg, apply_interest env r s = (Raise (AssertionError msg), s).
Proof.
  unfold apply_interest_requires, apply_interest.
  intros H. mpre H.
Qed.

Lemma apply_interest_state env r s :
  apply_interest_requires r s = true ->
  state_after (apply_interest env r) s = apply_interest_effect env r s.
Proof.
  unfold apply_interest_requires, apply_interest_effect, apply_interest,
    state_after.
  intros H. split_and. mrun.
  unfold bind at 1.
  destruct (apply_interest_loop env r (keys (balances s)) 0 s)
    as [[[]|e] s'] eqn:Hloop; cbn [snd]; [|reflexivity].
  mpost.
Qed.

(** The three read-only methods and [verify_invariants] write nothing. *)
Lemma authenticate_pin_state u p s : state_after (authenticate_pin u p) s = s.
Proof. unfold authenticate_pin, state_after. mpost. Qed.

Lemma get_payment_methods_state u s : state_after (get_payment_methods u) s = s.
Proof. unfold get_payment_methods, state_after. mpost. Qed.

Lemma track_transactions_state u f p ps s :
  state_after (track_transactions u f p ps) s = s.
Proof. unfold track_transactions, state_after. mpost. Qed.

(* ================================================================== *)
(** * One call: the state it leaves *)
(* ================================================================== *)

Lemma state_after_void {A} (m : M A) s :
  state_after (_ <- m ;; ret tt) s = state_after m s.
Proof.
  unfold state_after, bind, ret. destruct (m s) as [[a|e] s']; reflexivity.
Qed.

Lemma rejected_state {A} (m : M A) s :
  (exists msg, m s = (Raise (AssertionError msg), s)) -> state_after m s = s.
Proof. intros [msg H]. unfold state_after. now rewrite H. Qed.

Lemma call_state c s :
  state_after (call c) s = if requires c s then effect c s else s.
Proof.
  destruct c; simpl call; simpl requires; simpl effect;
    rewrite ?state_after_void,
      ?authenticate_pin_state, ?get_payment_methods_state,
      ?track_transactions_state;
    try match goal with
        | |- _ = if ?c then _ else _ => destruct c eqn:E
        end;
    try reflexivity;
    auto using rejected_state,
      create_account_state, create_account_rejects,
      set_pin_state, set_pin_rejects,
      add_funds_state, add_funds_rejects,
      withdraw_funds_state, withdraw_funds_rejects,
      transfer_state, transfer_rejects,
      apply_interest_state, apply_interest_rejects,
      set_spending_limits_state, set_spending_limits_rejects,
      add_payment_method_state, add_payment_method_rejects,
      real_time_update_state, real_time_update_rejects.
Qed.

(** ** The loop of [apply_interest] *)

Lemma loop_step env rate u rest k s :
  apply_interest_loop env rate (u :: rest) k s
  = match get (balances s) u with
    | Some old =>
        apply_interest_loop env rate rest (S k)
          (mkWallet (setitem (balances s) u (old + old * rate))
                    (transactions s ++ [interest_tx env k u (old * rate)])
                    (user_pins s) (payment_methods s) (spending_limits s))
    | None => (Raise (KeyError u), s)
    end.
Proof.
  cbn [apply_interest_loop]. mrun. destruct (get (balances s) u); reflexivity.
Qed.

Lemma interest_tx_written env rate k u x :
  written_by (CApplyInterest env rate) (interest_tx env k u x).
Proof. split; [reflexivity|]. intros Hc. apply Hc. Qed.

Lemma loop_log env rate users : forall k s,
  exists new,
    transactions (state_after (apply_interest_loop env rate users k) s)
    = transactions s ++ new
    /\ Forall (written_by (CApplyInterest env rate)) new.
Proof.
  induction users as [|u rest IH]; intros k s.
  - exists []. split; [now rewrite app_nil_r | constructor].
  - unfold state_after. rewrite loop_step.
    destruct (get (balances s) u) as [old|].
    + destruct (IH (S k) (mkWallet (setitem (balances s) u (old + old * rate))
                    (transactions s ++ [interest_tx env k u (old * rate)])
                    (user_pins s) (payment_methods s) (spending_limits s)))
        as (new & Hnew & Hall).
      unfold state_after in Hnew. rewrite Hnew. proj.
      exists (interest_tx env k u (old * rate) :: new). split.
      * now rewrite <- app_assoc.
      * constructor; auto using interest_tx_written.
    + exists []. split; [now rewrite app_nil_r | constructor].
Qed.

Lemma loop_non_negative env rate users :
  fgt rate 0 = true -> (rate <=? rate_max) = true ->
  forall k s, non_negative s ->
  non_negative (state_after (apply_interest_loop env rate users k) s).
Proof.
  intros Hr0 Hr1. induction users as [|u rest IH]; intros k s Hs.
  - exact Hs.
  - unfold state_after. rewrite loop_step.
    destruct (get (balances s) u) as [old|] eqn:Hu; [|exact Hs].
    apply IH. unfold non_negative in *. proj.
    apply Forall_values_setitem; [exact Hs|].
    assert (fge old 0 = true) as Hold.
    { eapply Forall_forall in Hs; [exact Hs|]. eapply get_In; eauto. }
    apply add_nonneg; [exact Hold|].
    apply (mul_nonneg old rate rate_max); auto.
Qed.

(** ** What a call appends to the log *)

Lemma effect_log c s :
  exists new,
    transactions (effect c s) = transactions s ++ new
    /\ Forall (written_by c) new.
Proof.
  assert (forall l : list Tx, exists new, l = l ++ new /\ Forall (written_by c) new)
    as Hnil by (intros l; exists []; split; [now rewrite app_nil_r | constructor]).
  destruct c; simpl effect; try apply Hnil.
  - unfold add_funds_effect. destruct (get _ _); [|apply Hnil]. proj.
    eexists; split; [reflexivity|]. repeat constructor. intros Hc; apply Hc.
  - unfold withdraw_funds_effect. destruct (get _ _); [|apply Hnil]. proj.
    eexists; split; [reflexivity|]. repeat constructor. intros Hc; apply Hc.
  - unfold transfer_effect. destruct (get _ _); [|apply Hnil].
    destruct (get _ _); [|apply Hnil]. proj.
    eexists; split; [reflexivity|]. repeat constructor. intros Hc; apply Hc.
  - apply loop_log.
  - unfold real_time_update_effect. destruct (get _ _); [|apply Hnil]. proj.
    eexists; split; [reflexivity|]. repeat constructor. intros Hc; apply Hc.
Qed.

Lemma call_log c s :
  exists new,
    transactions (state_after (call c) s) = transactions s ++ new
    /\ Forall (written_by c) new.
Proof.
  rewrite call_state. destruct (requires c s); [apply effect_log|].
  exists []. split; [now rewrite app_nil_r | constructor].
Qed.

(** ** Balances stay non-negative *)

Lemma zero_nonneg : fge 0 0 = true.
Proof. reflexivity. Qed.

Lemma balance_nonneg s u b :
  non_negative s -> get (balances s) u = Some b -> fge b 0 = true.
Proof.
  intros Hs Hu. eapply Forall_forall in Hs; [exact Hs|]. eapply get_In; eauto.
Qed.

Lemma effect_non_negative c s :
  requires c s = true -> non_negative s -> non_negative (effect c s).
Proof.
  intros Hreq Hs. destruct c; simpl in *; auto.
  - apply Forall_values_setitem; auto using zero_nonneg.
  - unfold add_funds_requires, add_funds_effect in *.
    destruct (get (balances s) user_id) as [b|] eqn:Hb; [|exact Hs].
    split_and. apply Forall_values_setitem; [exact Hs|].
    apply add_nonneg; eauto using balance_nonneg, fgt_zero_fge.
  - unfold withdraw_funds_requires, withdraw_funds_effect in *.
    destruct (get (balances s) user_id) as [b|] eqn:Hb; [|exact Hs].
    split_and. apply Forall_values_setitem; auto.
  - unfold transfer_requires, transfer_effect in *.
    destruct (get (balances s) sender) as [bs|] eqn:Ha; [|exact Hs].
    destruct (get (balances s) receiver) as [br|] eqn:Hb; [|exact Hs].
    split_and.
    assert (fge br 0 = true) as Hbr by eauto using balance_nonneg.
    assert (fge amount 0 = true) as Hx by auto using fgt_zero_fge.
    repeat apply Forall_values_setitem; auto.
    + apply sub_nonneg; auto. apply (add_below_inf_finite br amount); auto.
    + apply add_nonneg; auto.
  - unfold apply_interest_requires, apply_interest_effect in *.
    split_and. apply loop_non_negative; auto.
  - unfold real_time_update_requires, real_time_update_effect in *.
    destruct (get (balances s) user_id) as [b|] eqn:Hb; [|exact Hs].
    split_and. apply Forall_values_setitem; auto.
Qed.

Lemma call_non_negative c s :
  non_negative s -> non_negative (state_after (call c) s).
Proof.
  intros Hs. rewrite call_state. destruct (requires c s) eqn:E; auto.
  now apply effect_non_negative.
Qed.

Lemma call_log_timed c s :
  clock_ok c -> log_timed s -> log_timed (state_after (call c) s).
Proof.
  intros Hc Hs. destruct (call_log c s) as (new & Hnew & Hall).
  unfold log_timed. rewrite Hnew. apply Forall_app. split; [exact Hs|].
  eapply Forall_impl; [|exact Hall]. intros t [_ Ht]. auto.
Qed.

Lemma run_app cs1 cs2 s : run (cs1 ++ cs2) s = run cs2 (run cs1 s).
Proof. unfold run. apply fold_left_app. Qed.

(** Every state reached from [WalletSystem()] has non-negative balances
    and, when the clock returns numbers, a log stamped with numbers. *)
Lemma run_non_negative cs s : non_negative s -> non_negative (run cs s).
Proof.
  revert s. induction cs as [|c cs IH]; intros s Hs; simpl; auto.
  apply IH. now apply call_non_negative.
Qed.

Lemma run_log_timed cs s :
  Forall clock_ok cs -> log_timed s -> log_timed (run cs s).
Proof.
  revert s. induction cs as [|c cs IH]; intros s Hc Hs; simpl; auto.
  inversion Hc; subst. apply IH; auto. now apply call_log_timed.
Qed.


(** ** Reachable states pass [verify_invariants] *)

Section KeyFacts.
Context {V : Type}.
Implicit Types (d : dict V) (k : string) (v : V).

Lemma contains_In d k : contains d k = true <-> In k (keys d).
Proof.
  unfold contains. split.
  - destruct (get d k) eqn:E; [intros _|discriminate].
    destruct (in_dec string_dec k (keys d)) as [|Hn]; [assumption|].
    exfalso. revert E. induction d as [|[k' v'] d IH]; simpl; [discriminate|].
    destruct (String.eqb_spec k' k) as [->|]; [simpl in Hn; tauto|].
    apply IH. simpl in Hn. tauto.
  - intros H. apply get_of_key in H. destruct H as [v ->]. reflexivity.
Qed.

Lemma keys_setitem d k v :
  keys (setitem d k v) = if contains d k then keys d else keys d ++ [k].
Proof.
  unfold contains. induction d as [|[k' v'] d IH]; simpl; [reflexivity|].
  destruct (String.eqb k' k) eqn:E; simpl; [reflexivity|].
  rewrite IH. destruct (get d k); reflexivity.
Qed.

Lemma NoDup_keys_setitem d k v : NoDup (keys d) -> NoDup (keys (setitem d k v)).
Proof.
  intros H. rewrite keys_setitem. destruct (contains d k) eqn:E; [exact H|].
  apply NoDup_app; [exact H | repeat constructor; intros [] | ].
  intros x Hx [<-|[]]. apply contains_In in Hx. congruence.
Qed.

Lemma In_keys_setitem d k v u :
  In u (keys (setitem d k v)) -> u = k \/ In u (keys d).
Proof.
  rewrite keys_setitem. destruct (contains d k); [auto|].
  intros H. apply in_app_or in H. destruct H as [H|[<-|[]]]; auto.
Qed.

Lemma contains_setitem d k v u :
  contains d u = true -> contains (setitem d k v) u = true.
Proof.
  rewrite !contains_In, keys_setitem. destruct (contains d k); [auto|].
  intros H. apply in_or_app. now left.
Qed.

Lemma contains_setitem_same d k v : contains (setitem d k v) k = true.
Proof. unfold contains. now rewrite get_setitem_same. Qed.
End KeyFacts.

(** A property kept by every write of the loop is kept by the loop. *)
Lemma loop_preserves (P : WalletSystem -> Prop) env rate users :
  (forall s u old x t, P s -> get (balances s) u = Some old ->
     P (mkWallet (setitem (balances s) u x) (transactions s ++ [t])
                 (user_pins s) (payment_methods s) (spending_limits s))) ->
  forall k s, P s -> P (state_after (apply_interest_loop env rate users k) s).
Proof.
  intros Hstep. induction users as [|u rest IH]; intros k s Hs; [exact Hs|].
  unfold state_after. rewrite loop_step.
  destruct (get (balances s) u) as [old|] eqn:Hu; [|exact Hs].
  apply IH. eapply Hstep; eauto.
Qed.

Lemma keyed_balance_write s u x l :
  keyed s ->
  keyed (mkWallet (setitem (balances s) u x) l
                  (user_pins s) (payment_methods s) (spending_limits s)).
Proof.
  intros (H1 & H2 & H3 & H4). unfold keyed, keys_known in *. proj.
  repeat split; auto using NoDup_keys_setitem, contains_setitem.
Qed.

Lemma keys_known_setitem {V} (d : dict V) u v s :
  contains (balances s) u = true ->
  keys_known d s -> keys_known (setitem d u v) s.
Proof.
  intros Hu Hd x Hx. apply In_keys_setitem in Hx. destruct Hx as [->|Hx]; auto.
Qed.

Lemma effect_keyed c s : requires c s = true -> keyed s -> keyed (effect c s).
Proof.
  intros Hreq Hs. destruct c; simpl in *; auto.
  - apply keyed_balance_write; exact Hs.
  - unfold set_pin_requires in Hreq. split_and.
    destruct Hs as (K1 & K2 & K3 & K4). unfold keyed, set_pin_effect. proj.
    repeat split; auto. now apply keys_known_setitem.
  - unfold add_funds_effect. destruct (get _ _); [|exact Hs].
    now apply keyed_balance_write.
  - unfold withdraw_funds_effect. destruct (get _ _); [|exact Hs].
    now apply keyed_balance_write.
  - unfold transfer_effect. destruct (get _ _); [|exact Hs].
    destruct (get _ _); [|exact Hs].
    apply (keyed_balance_write
             (mkWallet (setitem (balances s) sender (f - amount))
                (transactions s) (user_pins s) (payment_methods s)
                (spending_limits s))).
    now apply keyed_balance_write.
  - unfold apply_interest_effect. apply loop_preserves; [|exact Hs].
    intros s0 u old x t H0 _. now apply keyed_balance_write.
  - unfold set_spending_limits_requires in Hreq. split_and.
    destruct Hs as (K1 & K2 & K3 & K4).
    unfold keyed, set_spending_limits_effect. proj.
    repeat split; auto. now apply keys_known_setitem.
  - unfold add_payment_method_requires in Hreq. split_and.
    destruct Hs as (K1 & K2 & K3 & K4).
    unfold keyed, add_payment_method_effect. proj.
    repeat split; auto. now apply keys_known_setitem.
  - unfold real_time_update_effect. destruct (get _ _); [|exact Hs].
    now apply keyed_balance_write.
Qed.

Lemma call_keyed c s : keyed s -> keyed (state_after (call c) s).
Proof.
  intros Hs. rewrite call_state. destruct (requires c s) eqn:E; auto.
  now apply effect_keyed.
Qed.

Lemma run_keyed cs s : keyed s -> keyed (run cs s).
Proof.
  revert s. induction cs as [|c cs IH]; intros s Hs; simpl; auto.
  apply IH. now apply call_keyed.
Qed.

Lemma init_keyed : keyed init.
Proof. repeat split; try constructor; intros u []. Qed.

Lemma distinct_NoDup ks : NoDup ks -> distinct ks = ks.
Proof.
  induction 1 as [|k r Hk Hr IH]; [reflexivity|]. cbn [distinct].
  destruct (existsb (String.eqb k) r) eqn:E.
  - apply existsb_exists in E. destruct E as (x & Hx & Ex).
    apply String.eqb_eq in Ex. subst x. contradiction.
  - now rewrite IH.
Qed.

(** Every state reached from [WalletSystem()] passes [verify_invariants]. *)
Lemma run_verify_invariants cs : verify_invariants (run cs init) = true.
Proof.
  destruct (run_keyed cs init init_keyed) as (H1 & H2 & H3 & H4).
  pose proof (run_non_negative cs init (Forall_nil _)) as H5.
  unfold verify_invariants.
  rewrite (distinct_NoDup _ H1). unfold keys at 1.
  rewrite length_map, Nat.eqb_refl.
  rewrite (proj2 (forallb_forall _ _)).
  2:{ intros b Hb. eapply Forall_forall in H5; eauto. }
  rewrite !(proj2 (forallb_forall _ _)); auto.
Qed.

Lemma run_keys_unique cs : NoDup (keys (balances (run cs init))).
Proof. apply (run_keyed cs init init_keyed). Qed.

(** ** Sorting and slicing *)

Lemma sorted_desc_cons a b r :
  sorted_desc (a :: b :: r) = fge (timestamp a) (timestamp b) && sorted_desc (b :: r).
Proof. reflexivity. Qed.

Lemma sorted_desc_tail a r : sorted_desc (a :: r) = true -> sorted_desc r = true.
Proof.
  destruct r as [|b r]; [reflexivity|]. rewrite sorted_desc_cons.
  intros H. now apply andb_prop in H.
Qed.

Lemma insert_desc_sorted x l :
  numbered x -> Forall numbered l ->
  sorted_desc l = true -> sorted_desc (insert_desc x l) = true.
Proof.
  intros Hx Hl. induction l as [|h r IH]; intros Hs; [reflexivity|].
  cbn [insert_desc]. inversion Hl as [|? ? Hh Hr]; subst.
  destruct (timestamp h <=? timestamp x) eqn:E.
  - rewrite sorted_desc_cons. unfold fge. now rewrite E, Hs.
  - assert (fge (timestamp h) (timestamp x) = true) as Hhx
      by (apply leb_total; auto).
    specialize (IH Hr (sorted_desc_tail _ _ Hs)).
    destruct r as [|b r]; cbn [insert_desc] in *.
    + rewrite sorted_desc_cons. now rewrite Hhx.
    + destruct (timestamp b <=? timestamp x).
      * rewrite sorted_desc_cons. now rewrite Hhx, IH.
      * rewrite sorted_desc_cons in Hs |- *.
        apply andb_prop in Hs. destruct Hs as [Hhb _]. now rewrite Hhb, IH.
Qed.

Lemma In_insert_desc t x l : In t (insert_desc x l) -> t = x \/ In t l.
Proof.
  induction l as [|h r IH]; cbn [insert_desc].
  - intros [->|[]]. now left.
  - destruct (timestamp h <=? timestamp x).
    + intros [->|H]; auto.
    + intros [->|H]; [right; now left|].
      destruct (IH H); auto. right. now right.
Qed.

Lemma In_sort_desc t l : In t (sort_desc l) -> In t l.
Proof.
  induction l as [|h r IH]; cbn [sort_desc fold_right]; [tauto|].
  intros H. apply In_insert_desc in H. destruct H as [->|H]; [now left|].
  right. now apply IH.
Qed.

Lemma sort_desc_sorted l :
  Forall numbered l -> sorted_desc (sort_desc l) = true.
Proof.
  induction l as [|h r IH]; intros Hl; [reflexivity|].
  inversion Hl; subst. cbn [sort_desc fold_right].
  apply insert_desc_sorted; [assumption | | now apply IH].
  apply Forall_forall. intros t Ht. apply In_sort_desc in Ht.
  eapply Forall_forall in Ht; eauto.
Qed.

Lemma skipn_sorted n : forall l,
  sorted_desc l = true -> sorted_desc (skipn n l) = true.
Proof.
  induction n as [|n IH]; intros l Hs; [exact Hs|].
  destruct l as [|a r]; [reflexivity|]. cbn [skipn].
  apply IH. eapply sorted_desc_tail; eauto.
Qed.

Lemma firstn_sorted n : forall l,
  sorted_desc l = true -> sorted_desc (firstn n l) = true.
Proof.
  induction n as [|n IH]; intros l Hs; [reflexivity|].
  destruct l as [|a r]; [reflexivity|]. cbn [firstn].
  specialize (IH r (sorted_desc_tail _ _ Hs)).
  destruct r as [|b r]; [destruct n; reflexivity|].
  destruct n as [|n]; [reflexivity|].
  cbn [firstn] in *. rewrite sorted_desc_cons in Hs |- *.
  apply andb_prop in Hs. destruct Hs as [Hab _]. now rewrite Hab, IH.
Qed.

Lemma slice_sorted a b l :
  sorted_desc l = true -> sorted_desc (slice a b l) = true.
Proof. intros H. unfold slice. now apply firstn_sorted, skipn_sorted. Qed.

Lemma In_slice {A} (x : A) a b l : In x (slice a b l) -> In x l.
Proof.
  unfold slice. intros H.
  rewrite <- (firstn_skipn (Z.to_nat a) l). apply in_or_app. right.
  rewrite <- (firstn_skipn (Z.to_nat (b - a)) (skipn (Z.to_nat a) l)).
  apply in_or_app. now left.
Qed.

Lemma slice_length {A} a b (l : list A) :
  (a <= b)%Z -> (Z.of_nat (List.length (slice a b l)) <= b - a)%Z.
Proof.
  intros Hab. unfold slice.
  pose proof (firstn_le_length (Z.to_nat (b - a)) (skipn (Z.to_nat a) l)). lia.
Qed.

Lemma In_apply_filters t f : forall l, In t (apply_filters f l) -> In t l.
Proof.
  unfold apply_filters. induction f as [|kv f IH]; intros l H; [exact H|].
  cbn [fold_left] in H. apply IH in H. apply filter_In in H. tauto.
Qed.

(** ** [balances_unchanged] on an untouched state *)

Lemma all_res_true {A} (p : A -> Res bool) l :
  (forall x, In x l -> p x = Ok true) -> all_res p l = Ok true.
Proof.
  induction l as [|x r IH]; intros H; [reflexivity|].
  cbn [all_res]. rewrite (H x) by now left. cbn [rbind].
  apply IH. intros y Hy. apply H. now right.
Qed.

Lemma balances_unchanged_self s :
  Forall (fun b => (b =? b) = true) (values (balances s)) ->
  balances_unchanged nobody (balances s) s = Ok true.
Proof.
  intros Hs. unfold balances_unchanged. apply all_res_true.
  intros u Hu. unfold nobody, balance_of, getitem.
  destruct (get_of_key _ _ Hu) as [b Hb]. rewrite Hb. cbn [rbind].
  f_equal. eapply Forall_forall in Hs; [exact Hs|]. eapply get_In; eauto.
Qed.

Lemma track_transactions_ok s u filters page page_size :
  Forall (fun b => (b =? b) = true) (values (balances s)) ->
  log_timed s ->
  contains (balances s) u = true ->
  (1 <= page)%Z -> (1 <= page_size <= 100)%Z ->
  exists result,
    track_transactions u filters page page_size s = (Ok result, s)
    /\ (Z.of_nat (List.length result) <= page_size)%Z
    /\ Forall (fun t => involves u t = true) result
    /\ sorted_desc result = true.
Proof.
  intros Hbal Hlog Hu Hp [Hps1 Hps2].
  unfold track_transactions.
  apply Z.leb_le in Hp as Hp', Hps1 as Hps1', Hps2 as Hps2'.
  rewrite bind_gets, Hu, bind_assert. cbv beta iota.
  rewrite bind_assert, Hp'. rewrite bind_assert, Hps1', Hps2'. cbn [andb].
  rewrite bind_assert, bind_gets, bind_gets. cbv beta iota zeta.
  set (txs := sort_desc _).
  set (result := slice _ _ txs).
  assert (forall t, In t txs -> In t (transactions s) /\ involves u t = true) as Htx.
  { intros t Ht. apply In_sort_desc in Ht.
    assert (In t (filter (involves u) (transactions s))) as Hf.
    { destruct filters as [[|kv f]|]; auto. eapply In_apply_filters; eauto. }
    apply filter_In in Hf. exact Hf. }
  assert (sorted_desc result = true) as E3.
  { apply slice_sorted, sort_desc_sorted. apply Forall_forall.
    intros t Ht.
    assert (In t (transactions s)) as Hin.
    { assert (In t (filter (involves u) (transactions s))) as Hf.
      { destruct filters as [[|kv f]|]; auto. eapply In_apply_filters; eauto. }
      apply filter_In in Hf. tauto. }
    eapply Forall_forall in Hlog; eauto. }
  assert (Forall (fun t => involves u t = true) result) as E2.
  { apply Forall_forall. intros t Ht. apply In_slice in Ht. now apply Htx. }
  assert (Z.of_nat (List.length result) <= page_size)%Z as E1.
  { pose proof (slice_length ((page - 1) * page_size)
                  ((page - 1) * page_size + page_size) txs). 
    fold result in H. lia. }
  exists result. repeat split; auto.
  apply Z.leb_le in E1. rewrite bind_assert, E1.
  rewrite bind_assert. rewrite (proj2 (forallb_forall _ _)).
  2:{ intros t Ht. eapply Forall_forall in E2; eauto. }
  rewrite bind_assert, E3, bind_read, balances_unchanged_self by exact Hbal.
  rewrite bind_assert. reflexivity.
Qed.


(** ** Dictionaries with distinct keys *)

Section DictOrder.
Context {V : Type}.
Implicit Types (d pre post : dict V) (k : string) (v : V).

Lemma get_app_absent pre post k :
  ~ In k (keys pre) -> get (pre ++ post) k = get post k.
Proof.
  induction pre as [|[k' v'] pre IH]; simpl; intros H; [reflexivity|].
  destruct (String.eqb_spec k' k); [tauto|]. apply IH. tauto.
Qed.

Lemma setitem_app_absent pre post k v :
  ~ In k (keys pre) -> setitem (pre ++ post) k v = pre ++ setitem post k v.
Proof.
  induction pre as [|[k' v'] pre IH]; simpl; intros H; [reflexivity|].
  destruct (String.eqb_spec k' k); [tauto|]. rewrite IH by tauto. reflexivity.
Qed.

Lemma keys_app pre post : keys (pre ++ post) = keys pre ++ keys post.
Proof. apply map_app. Qed.

Lemma NoDup_get d k v : NoDup (keys d) -> In (k, v) d -> get d k = Some v.
Proof.
  induction d as [|[k' v'] d IH]; simpl; intros Hnd Hin; [tauto|].
  inversion Hnd as [|? ? Hk' Hd]; subst.
  destruct Hin as [[= -> ->]|Hin].
  - now rewrite String.eqb_refl.
  - destruct (String.eqb_spec k' k) as [->|Hne]; [|auto].
    exfalso. apply Hk'. change k with (fst (k, v)). now apply in_map.
Qed.
End DictOrder.

Lemma get_accrue rate d k :
  get (accrue rate d) k
  = match get d k with Some b => Some (b + b * rate) | None => None end.
Proof.
  induction d as [|[k' b] d IH]; simpl; [reflexivity|].
  destruct (String.eqb k' k); auto.
Qed.

Lemma all_res_inv {A} (p : A -> Res bool) l :
  all_res p l = Ok true -> forall x, In x l -> p x = Ok true.
Proof.
  induction l as [|y r IH]; cbn [all_res]; intros H x Hx; [destruct Hx|].
  destruct (p y) as [[|]|e] eqn:E; cbn [rbind] in H; try discriminate.
  destruct Hx as [->|Hx]; auto.
Qed.

(** ** What [transfer] and [apply_interest] compute *)

Lemma loop_exact env rate : forall post pre k s,
  balances s = pre ++ post ->
  NoDup (keys (pre ++ post)) ->
  apply_interest_loop env rate (keys post) k s
  = (Ok tt,
     mkWallet (pre ++ accrue rate post)
              (transactions s ++ interest_txs env rate k post)
              (user_pins s) (payment_methods s) (spending_limits s)).
Proof.
  induction post as [|[u b] post IH]; intros pre k s Hs Hnd.
  - cbn [keys map apply_interest_loop accrue interest_txs]. unfold ret.
    rewrite <- Hs, app_nil_r. now destruct s.
  - cbn [keys map fst]. rewrite loop_step.
    assert (~ In u (keys pre)) as Hu.
    { rewrite keys_app in Hnd. cbn in Hnd. apply NoDup_remove_2 in Hnd.
      intros Hin. apply Hnd. apply in_or_app. now left. }
    rewrite Hs, get_app_absent by exact Hu. cbn [get].
    rewrite String.eqb_refl.
    rewrite setitem_app_absent by exact Hu. cbn [setitem].
    rewrite String.eqb_refl.
    fold (keys post).
    rewrite (IH (pre ++ [(u, b + b * rate)]) (S k)).
    + proj. cbn [accrue map interest_txs fst snd].
      rewrite <- !app_assoc. reflexivity.
    + proj. now rewrite <- app_assoc.
    + rewrite <- app_assoc. cbn [app].
      rewrite keys_app in Hnd |- *. exact Hnd.
Qed.

Lemma apply_interest_loop_exact env rate s :
  NoDup (keys (balances s)) ->
  apply_interest_loop env rate (keys (balances s)) 0 s
  = (Ok tt,
     mkWallet (accrue rate (balances s))
              (transactions s ++ interest_txs env rate 0 (balances s))
              (user_pins s) (payment_methods s) (spending_limits s)).
Proof. intros H. now apply (loop_exact env rate (balances s) []). Qed.

Lemma apply_interest_completes_within_tolerance env rate s :
  NoDup (keys (balances s)) ->
  apply_interest_requires rate s = true ->
  result_of (apply_interest env rate) s = Ok tt ->
  Forall (fun ub => (abs (snd ub + snd ub * rate - snd ub * (1 + rate))
                     <? tol_1e9) = true) (balances s)
  /\ (abs (py_sum (values (accrue rate (balances s)))
           - py_sum (values (balances s)) * (1 + rate)) <? tol_1e6) = true.
Proof.
  unfold apply_interest_requires, apply_interest, result_of.
  intros Hnd H. split_and. mrun.
  unfold bind at 1. rewrite apply_interest_loop_exact by exact Hnd.
  mok. intros _. proj. split; [|auto].
  apply Forall_forall. intros [u b] Hub. cbn [snd].
  match goal with
  | H : all_res ?p _ = Ok true |- _ =>
      lazymatch p with context [tol_1e9] => idtac end;
      apply all_res_inv with (x := u) in H;
        [revert H|change u with (fst (u, b)); now apply in_map]
  end.
  unfold balance_of, getitem. proj.
  rewrite get_accrue, (NoDup_get _ _ _ Hnd Hub). cbn [rbind].
  now intros [= ->].
Qed.

Lemma transfer_completes_within_tolerance env a b x s :
  transfer_requires a b x s = true ->
  result_of (transfer env a b x) s = Ok tt ->
  (abs (py_sum (values (balances s))
        - py_sum (values (balances (transfer_effect env a b x s)))) <? tol_1e9) = true.
Proof.
  unfold transfer_requires, transfer_effect, transfer, result_of.
  destruct (get (balances s) a) as [ba|] eqn:Ha; [|discriminate].
  destruct (get (balances s) b) as [bb|] eqn:Hb; [|discriminate].
  intros H. split_and.
  assert (a <> b) as Hne.
  { intros ->. rewrite String.eqb_refl in *. discriminate. }
  mrun. rewrite (get_setitem_other _ a b) by exact Hne.
  mok. intros _. proj. auto.
Qed.

Lemma interest_txs_shape env rate d : forall k,
  map (fun t => (get_value t "type", get_value t "user_id"))
      (interest_txs env rate k d)
  = map (fun u => (VStr "interest", VStr u)) (keys d).
Proof.
  induction d as [|[u b] d IH]; intros k; [reflexivity|].
  cbn [interest_txs map keys fst]. f_equal. apply IH.
Qed.

Lemma leb_10000_1000000 x : (x <=? 10000) = true -> (x <=? 1000000) = true.
Proof.
  rewrite !leb_spec. unfold SFleb.
  change (Prim2SF 10000) with (S754_finite false 5497558138880000 (-39)).
  change (Prim2SF 1000000) with (S754_finite false 8589934592000000 (-33)).
  destruct (Prim2SF x) as [sx|sx| |sx mx ex]; cbn [SFcompare]; auto.
  destruct sx; auto.
  destruct (Z.compare_spec ex (-39)); try discriminate;
    destruct (Z.compare_spec ex (-33)); auto; try lia.
Qed.

Lemma below_10000_finite x :
  (0 <? x) = true -> (x <=? 10000) = true -> sf_finite (Prim2SF x).
Proof.
  rewrite ltb_spec, leb_spec, Prim2SF_zero. unfold SFltb, SFleb.
  change (Prim2SF 10000) with (S754_finite false 5497558138880000 (-39)).
  destruct (Prim2SF x) as [sx|sx| |sx mx ex]; cbn [SFcompare sf_finite]; auto;
    try destruct sx; discriminate.
Qed.


(** ** Rounding at work *)

(** With balances 1e16 and 1, a transfer of 1 passes R1-R5, leaves the
    sender at 1e16, the receiver at 2, appends its record and then fails
    E4: the total moved by 2. *)
Lemma transfer_may_raise_after_writing :
  transfer_requires "alice" "bob" 1 big = true
  /\ result_of (transfer (env_at 1002) "alice" "bob" 1) big
     = Raise (AssertionError "E4 violated: Total balance changed")
  /\ balances (state_after (transfer (env_at 1002) "alice" "bob" 1) big)
     = [("alice", 10000000000000000); ("bob", 2)]
  /\ List.length (transactions
                    (state_after (transfer (env_at 1002) "alice" "bob" 1) big))
     = S (List.length (transactions big)).
Proof. vm_compute. auto. Qed.

(** From a balance of [2^53 + 2], a deposit of 1 and a withdrawal of 1
    both complete and leave [2^53 + 4]. *)
Lemma deposit_withdraw_may_gain :
  let r1 := add_funds (env_at 1001) "alice" 1 odd in
  let r2 := withdraw_funds (env_at 1002) "alice" "PT500123456789" 1 (snd r1) in
  fst r1 = Ok tt /\ fst r2 = Ok tt
  /\ balances odd = [("alice", 9007199254740994)]
  /\ balances (snd r2) = [("alice", 9007199254740996)].
Proof. vm_compute. auto. Qed.

(* ================================================================== *)
(** * The claims *)
(* ================================================================== *)

(** C1, as stated, fails: with balances 0.3 and 0.7 a transfer of 0.1
    completes, and [sum(self.balances.values())] goes from 1.0 to
    0.9999999999999999. *)
Lemma transfer_exact_fails :
  ~ transfer_exact (env_at 1002) "alice" "bob" f0_1 small_accounts.
Proof.
  intros H.
  assert ("alice" <> "bob") as Hne by discriminate.
  destruct (H f0_3 f0_7 eq_refl eq_refl Hne eq_refl eq_refl)
    as (_ & _ & _ & _ & Hsum).
  apply (f_equal (fun x => x =? 1)) in Hsum.
  vm_compute in Hsum. discriminate Hsum.
Qed.

(** C1, amended. When the preconditions R1-R5 hold, [transfer] writes
    the binary64 difference [balance[sender] - amount] and the binary64
    sum [balance[receiver] + amount], leaves every other balance as it
    was and appends one transfer record; this holds whether the call then
    completes or a postcondition raises.  When the call completes, the
    sums of all balances before and after differ by less than [1e-9]. *)
Theorem transfer_rounds (env : Env) (sender receiver : string)
    (amount bs br : float) (s : WalletSystem) :
  get (balances s) sender = Some bs ->
  get (balances s) receiver = Some br ->
  sender <> receiver ->
  fgt amount 0 = true ->
  fge bs amount = true ->
  (br + amount <? inf) = true ->
  let s' := state_after (transfer env sender receiver amount) s in
  get (balances s') sender = Some (bs - amount)
  /\ get (balances s') receiver = Some (br + amount)
  /\ (forall u, u <> sender -> u <> receiver ->
                get (balances s') u = get (balances s) u)
  /\ transactions s' = transactions s ++ [transfer_tx env sender receiver amount]
  /\ (result_of (transfer env sender receiver amount) s = Ok tt ->
      (abs (py_sum (values (balances s)) - py_sum (values (balances s')))
       <? tol_1e9) = true).
Proof.
  intros Hs Hr Hne Ha Hge Hinf s'.
  assert (transfer_requires sender receiver amount s = true) as Hreq.
  { unfold transfer_requires. rewrite Hs, Hr, Ha, Hge, Hinf.
    destruct (String.eqb_spec sender receiver); [contradiction|reflexivity]. }
  assert (s' = transfer_effect env sender receiver amount s) as Es
    by (apply transfer_state; exact Hreq).
  split; [|split; [|split; [|split]]].
  - rewrite Es. unfold transfer_effect. rewrite Hs, Hr. proj.
    rewrite get_setitem_other by congruence. apply get_setitem_same.
  - rewrite Es. unfold transfer_effect. rewrite Hs, Hr. proj.
    apply get_setitem_same.
  - intros u Hu1 Hu2. rewrite Es. unfold transfer_effect. rewrite Hs, Hr. proj.
    rewrite !get_setitem_other by congruence. reflexivity.
  - rewrite Es. unfold transfer_effect. rewrite Hs, Hr. reflexivity.
  - intros Hok. rewrite Es.
    apply transfer_completes_within_tolerance; assumption.
Qed.

Lemma transfer_rounds_witness :
  let s' := state_after (transfer (env_at 1002) "alice" "bob" f0_1) small_accounts in
  get (balances s') "alice" = Some (f0_3 - f0_1)
  /\ get (balances s') "bob" = Some (f0_7 + f0_1)
  /\ (forall u, u <> "alice" -> u <> "bob" ->
                get (balances s') u = get (balances small_accounts) u)
  /\ transactions s' = transactions small_accounts ++ [transfer_tx (env_at 1002) "alice" "bob" f0_1]
  /\ (result_of (transfer (env_at 1002) "alice" "bob" f0_1) small_accounts = Ok tt ->
      (abs (py_sum (values (balances small_accounts)) - py_sum (values (balances s')))
       <? tol_1e9) = true).
Proof.
  apply (transfer_rounds (env_at 1002) "alice" "bob" f0_1 f0_3 f0_7 small_accounts);
    try reflexivity.
  discriminate.
Defined.

(** C2. Starting from a freshly constructed wallet, after any finite
    sequence of public calls, each of which may complete or be rejected
    (by a precondition or by a postcondition), every balance satisfies
    [balance >= 0], the invariant I2 of [verify_invariants]. *)
Theorem balances_never_negative (cs : list Call) :
  non_negative (run cs init).
Proof. apply run_non_negative. constructor. Qed.



(** C4, as stated, fails: a balance of 100 at rate 0.1 becomes
    [100 + 100 * 0.1 = 110.0], while [100 * (1 + 0.1)] is
    110.00000000000001. *)
Lemma interest_exact_fails : ~ interest_exact (env_at 1001) f0_1 hundred.
Proof.
  intros H.
  destruct (H eq_refl eq_refl eq_refl) as (_ & Hbal & _).
  apply (f_equal (fun d => match get d "alice" with
                           | Some b => b =? 110
                           | None => false
                           end)) in Hbal.
  vm_compute in Hbal. discriminate Hbal.
Qed.

(** C4, amended. When R1 and R2 hold, [apply_interest] sets every balance
    to the binary64 value [balance + balance * rate] and appends exactly
    one ["interest"] record per account, in the order of the accounts;
    this holds whether the call then completes or a postcondition raises.
    When the call completes, every new balance is within [1e-9] of
    [balance * (1 + rate)] and the new total within [1e-6] of
    [total * (1 + rate)]. *)
Theorem apply_interest_accrues (env : Env) (rate : float) (s : WalletSystem) :
  NoDup (keys (balances s)) ->
  (0 <? rate) = true ->
  (rate <=? rate_max) = true ->
  forallb (fun b => b * (1 + rate) <? inf) (values (balances s)) = true ->
  let s' := state_after (apply_interest env rate) s in
  balances s' = accrue rate (balances s)
  /\ transactions s' = transactions s ++ interest_txs env rate 0 (balances s)
  /\ map (fun t => (get_value t "type", get_value t "user_id"))
         (interest_txs env rate 0 (balances s))
     = map (fun u => (VStr "interest", VStr u)) (keys (balances s))
  /\ (result_of (apply_interest env rate) s = Ok tt ->
      Forall (fun ub => (abs (snd ub + snd ub * rate - snd ub * (1 + rate))
                         <? tol_1e9) = true) (balances s)
      /\ (abs (py_sum (values (balances s'))
               - py_sum (values (balances s)) * (1 + rate)) <? tol_1e6) = true).
Proof.
  intros Hnd H0 H1 H2 s'.
  assert (apply_interest_requires rate s = true) as Hreq
    by (unfold apply_interest_requires; now rewrite H0, H1, H2).
  assert (s' = mkWallet (accrue rate (balances s))
                 (transactions s ++ interest_txs env rate 0 (balances s))
                 (user_pins s) (payment_methods s) (spending_limits s)) as Es.
  { unfold s'. rewrite apply_interest_state by exact Hreq.
    unfold apply_interest_effect, state_after.
    now rewrite apply_interest_loop_exact. }
  rewrite Es. proj. repeat split; auto using interest_txs_shape.
  - apply apply_interest_completes_within_tolerance with (env := env); auto.
  - apply apply_interest_completes_within_tolerance with (env := env); auto.
Qed.

Lemma apply_interest_accrues_witness :
  let s' := state_after (apply_interest (env_at 1001) f0_1) hundred in
  balances s' = accrue f0_1 (balances hundred)
  /\ transactions s'
     = transactions hundred ++ interest_txs (env_at 1001) f0_1 0 (balances hundred)
  /\ map (fun t => (get_value t "type", get_value t "user_id"))
         (interest_txs (env_at 1001) f0_1 0 (balances hundred))
     = map (fun u => (VStr "interest", VStr u)) (keys (balances hundred))
  /\ (result_of (apply_interest (env_at 1001) f0_1) hundred = Ok tt ->
      Forall (fun ub => (abs (snd ub + snd ub * f0_1 - snd ub * (1 + f0_1))
                         <? tol_1e9) = true) (balances hundred)
      /\ (abs (py_sum (values (balances s'))
               - py_sum (values (balances hundred)) * (1 + f0_1)) <? tol_1e6) = true).
Proof.
  apply (apply_interest_accrues (env_at 1001) f0_1 hundred); try reflexivity.
  repeat constructor. intros [].
Defined.

(** C5, as stated, fails: from a balance of 0.1, depositing and then
    withdrawing 0.2 leaves 0.10000000000000003. *)
Lemma deposit_withdraw_exact_fails :
  ~ deposit_withdraw_exact (env_at 1001) (env_at 1002) "alice"
      "PT500123456789" f0_2 dime.
Proof.
  intros H.
  destruct (H f0_1 eq_refl eq_refl eq_refl eq_refl) as (Hbal & _).
  apply (f_equal (fun o => match o with
                           | Some b => b =? f0_1
                           | None => false
                           end)) in Hbal.
  vm_compute in Hbal. discriminate Hbal.
Qed.

(** C5, amended. For an existing account with balance [b >= 0] (I2), an
    amount with [0 < amount <= 10000], a valid bank account and no
    overflow ([b + amount < inf]), neither [add_funds] nor the following
    [withdraw_funds] is rejected by a precondition, and together they
    leave the binary64 value [(b + amount) - amount] as the balance (equal
    to [b] up to rounding only), leave the other balances as they were
    and append exactly two records, a deposit and then a withdrawal; this
    holds whether or not a postcondition then raises. *)
Theorem deposit_then_withdraw (env1 env2 : Env) (u bank : string)
    (amount b : float) (s : WalletSystem) :
  get (balances s) u = Some b ->
  fge b 0 = true ->
  (0 <? amount) = true ->
  (amount <=? 10000) = true ->
  valid_bank_account bank = true ->
  (b + amount <? inf) = true ->
  let s1 := state_after (add_funds env1 u amount) s in
  let s2 := state_after (withdraw_funds env2 u bank amount) s1 in
  add_funds_requires u amount s = true
  /\ withdraw_funds_requires u bank amount s1 = true
  /\ get (balances s2) u = Some (b + amount - amount)
  /\ (forall v, v <> u -> get (balances s2) v = get (balances s) v)
  /\ transactions s2
     = transactions s ++ [deposit_tx env1 u amount;
                          withdrawal_tx env2 u bank amount].
Proof.
  intros Hb Hb0 H0 H1 Hbank Hinf s1 s2.
  assert (sf_finite (Prim2SF amount)) as Hfin by auto using below_10000_finite.
  assert (fge (b + amount) amount = true) as Hge by (apply add_ge_right; auto).
  assert (add_funds_requires u amount s = true) as R1.
  { unfold add_funds_requires, fgt.
    now rewrite Hb, H0, (leb_10000_1000000 _ H1), Hinf. }
  assert (s1 = add_funds_effect env1 u amount s) as E1
    by (apply add_funds_state; exact R1).
  unfold add_funds_effect in E1. rewrite Hb in E1.
  assert (get (balances s1) u = Some (b + amount)) as Hb1
    by (rewrite E1; apply get_setitem_same).
  assert (withdraw_funds_requires u bank amount s1 = true) as R2.
  { unfold withdraw_funds_requires.
    rewrite Hb1, Hbank, H0, H1, Hge. cbn [andb].
    apply sub_nonneg; auto. }
  assert (s2 = withdraw_funds_effect env2 u bank amount s1) as E2
    by (apply withdraw_funds_state; exact R2).
  unfold withdraw_funds_effect in E2. rewrite Hb1 in E2.
  split; [exact R1|]. split; [exact R2|].
  rewrite E2. proj. split; [|split].
  - apply get_setitem_same.
  - intros v Hv. rewrite E1. proj.
    rewrite !get_setitem_other by congruence. reflexivity.
  - rewrite E1. proj. rewrite <- app_assoc. reflexivity.
Qed.

Lemma deposit_then_withdraw_witness :
  let s1 := state_after (add_funds (env_at 1001) "alice" f0_2) dime in
  let s2 := state_after (withdraw_funds (env_at 1002) "alice"
                           "PT500123456789" f0_2) s1 in
  add_funds_requires "alice" f0_2 dime = true
  /\ withdraw_funds_requires "alice" "PT500123456789" f0_2 s1 = true
  /\ get (balances s2) "alice" = Some (f0_1 + f0_2 - f0_2)
  /\ (forall v, v <> "alice" -> get (balances s2) v = get (balances dime) v)
  /\ transactions s2
     = transactions dime
       ++ [deposit_tx (env_at 1001) "alice" f0_2;
           withdrawal_tx (env_at 1002) "alice" "PT500123456789" f0_2].
Proof.
  apply (deposit_then_withdraw (env_at 1001) (env_at 1002) "alice"
           "PT500123456789" f0_2 f0_1 dime); reflexivity.
Defined.

(** C6. In every state reached from a fresh wallet (the clock returning
    numbers), for an existing account, [page >= 1], [1 <= page_size <= 100]
    and any filters, [track_transactions] returns a list of at most
    [page_size] transactions, each with the user as [user_id], [from] or
    [to], in non-increasing timestamp order. *)
Theorem track_transactions_page (cs : list Call) (user_id : string)
    (filters : option (dict Value)) (page page_size : Z) :
  Forall clock_ok cs ->
  contains (balances (run cs init)) user_id = true ->
  (1 <= page)%Z ->
  (1 <= page_size <= 100)%Z ->
  exists result,
    track_transactions user_id filters page page_size (run cs init)
    = (Ok result, run cs init)
    /\ (Z.of_nat (List.length result) <= page_size)%Z
    /\ Forall (fun t => involves user_id t = true) result
    /\ sorted_desc result = true.
Proof.
  intros Hc Hu Hp Hps. apply track_transactions_ok; auto.
  - eapply Forall_impl; [|apply (run_non_negative cs init); constructor].
    intros b. apply fge_zero_notnan.
  - apply run_log_timed; [exact Hc | constructor].
Qed.

Lemma track_transactions_page_witness :
  exists result,
    track_transactions "alice" (Some [("type", VStr "deposit")]) 1 25
      (run two_accounts_calls init)
    = (Ok result, run two_accounts_calls init)
    /\ (Z.of_nat (List.length result) <= 25)%Z
    /\ Forall (fun t => involves "alice" t = true) result
    /\ sorted_desc result = true.
Proof.
  apply (track_transactions_page two_accounts_calls "alice"
           (Some [("type", VStr "deposit")]) 1 25).
  - repeat constructor; intros k; reflexivity.
  - reflexivity.
  - lia.
  - lia.
Defined.

(** C7. [authenticate_pin], [get_payment_methods] and [track_transactions]
    leave every component of the state unchanged, for all arguments
    (whether or not their preconditions hold). *)
Theorem read_only_methods_keep_state (s : WalletSystem) :
  (forall u pin, state_after (authenticate_pin u pin) s = s)
  /\ (forall u, state_after (get_payment_methods u) s = s)
  /\ (forall u filters page page_size,
        state_after (track_transactions u filters page page_size) s = s).
Proof.
  auto using authenticate_pin_state, get_payment_methods_state,
    track_transactions_state.
Qed.

(** C8. The log is append-only: after any public call, in any state, the
    transaction list is the list before the call followed by zero or more
    new records, each with status ["completed"]. *)
Theorem log_append_only (c : Call) (s : WalletSystem) :
  exists new,
    transactions (state_after (call c) s) = transactions s ++ new
    /\ Forall completed new.
Proof.
  destruct (call_log c s) as (new & Hnew & Hall).
  exists new. split; [exact Hnew|].
  eapply Forall_impl; [|exact Hall]. intros t [Ht _]. exact Ht.
Qed.

(** C9. For two valid passwords (non-empty, length at least 6),
    [create_account] returns the same result and leaves the same state:
    the password is checked and never stored. *)
Theorem password_not_stored (s : WalletSystem) (user_id email p1 p2 : string) :
  valid_password p1 = true ->
  valid_password p2 = true ->
  create_account user_id email p1 s = create_account user_id email p2 s.
Proof.
  unfold valid_password, create_account. intros H1 H2.
  rewrite H1, H2. reflexivity.
Qed.

Lemma password_not_stored_witness :
  create_account "carol" "carol@example.org" "hunter22" two_accounts
  = create_account "carol" "carol@example.org" "correct horse" two_accounts.
Proof.
  apply (password_not_stored two_accounts "carol" "carol@example.org"
           "hunter22" "correct horse"); reflexivity.
Defined.

(** C10. For an existing account without a PIN record,
    [authenticate_pin] returns [False] for every [pin], raises nothing and
    leaves the state unchanged. *)
Theorem authenticate_without_pin (s : WalletSystem) (user_id pin : string) :
  contains (balances s) user_id = true ->
  get (user_pins s) user_id = None ->
  authenticate_pin user_id pin s = (Ok false, s).
Proof.
  intros Hu Hp. unfold authenticate_pin. mrun.
  rewrite eqb_refl by (intros; apply String.eqb_refl).
  reflexivity.
Qed.

Lemma authenticate_without_pin_witness :
  authenticate_pin "alice" "1234" two_accounts = (Ok false, two_accounts).
Proof.
  apply (authenticate_without_pin two_accounts "alice" "1234"); reflexivity.
Defined.

(* ================================================================== *)
(** * Further properties of the methods *)
(* ================================================================== *)

(** ** Reachable states *)

Lemma reachable_init : reachable init.
Proof. exists []. reflexivity. Qed.

Lemma reachable_step c s : reachable s -> reachable (state_after (call c) s).
Proof.
  intros [cs ->]. exists (cs ++ [c]). now rewrite run_app.
Qed.

Lemma reachable_verify s : reachable s -> verify_invariants s = true.
Proof. intros [cs ->]. apply run_verify_invariants. Qed.

Lemma reachable_non_negative s : reachable s -> non_negative s.
Proof. intros [cs ->]. apply run_non_negative. constructor. Qed.

Lemma reachable_numbers s :
  reachable s -> Forall is_number (values (balances s)).
Proof.
  intros H. eapply Forall_impl; [|apply reachable_non_negative; exact H].
  intros b. apply fge_zero_notnan.
Qed.

Lemma reachable_effect c s :
  reachable s -> requires c s = true -> reachable (effect c s).
Proof.
  intros Hs Hr. pose proof (reachable_step c s Hs) as H.
  now rewrite call_state, Hr in H.
Qed.

(** [balances_unchanged] passes when the balances it looks at are numbers
    and still what they were. *)
Lemma balances_unchanged_ok skip old s' :
  Forall is_number (values old) ->
  (forall k b, get old k = Some b -> skip k = false ->
               get (balances s') k = Some b) ->
  balances_unchanged skip old s' = Ok true.
Proof.
  intros Hnum Hsame. unfold balances_unchanged. apply all_res_true.
  intros k Hk. destruct (skip k) eqn:Esk; [reflexivity|].
  destruct (get_of_key _ _ Hk) as [b Hb].
  unfold balance_of, getitem. rewrite (Hsame k b Hb Esk), Hb. cbn [rbind].
  f_equal. eapply Forall_forall in Hnum; [exact Hnum|]. eapply get_In; eauto.
Qed.

Lemma length_setitem_absent {V} (d : dict V) k v :
  get d k = None -> List.length (setitem d k v) = S (List.length d).
Proof.
  induction d as [|[k' v'] d IH]; simpl; [reflexivity|].
  destruct (String.eqb k' k); [discriminate|]. intros H. simpl. now rewrite IH.
Qed.

Lemma length_setitem_present {V} (d : dict V) k v :
  contains d k = true -> List.length (setitem d k v) = List.length d.
Proof.
  intros H. rewrite <- (length_map fst (setitem d k v)), <- (length_map fst d).
  fold (keys (setitem d k v)). fold (keys d). now rewrite keys_setitem, H.
Qed.

(** X1. After any finite sequence of public calls on a fresh wallet, each
    of which may complete or raise, [verify_invariants()] returns [True]:
    I1-I5 hold in every reachable state. *)
Theorem invariants_hold_after_any_calls (cs : list Call) :
  verify_invariants (run cs init) = true.
Proof. apply reachable_verify. now exists cs. Qed.

Lemma distinct_incl ks : forall k, In k (distinct ks) -> In k ks.
Proof.
  induction ks as [|a r IH]; cbn [distinct]; [tauto|].
  intros k. destruct (existsb (String.eqb a) r); cbn; intuition.
Qed.

Lemma distinct_length ks : (List.length (distinct ks) <= List.length ks)%nat.
Proof.
  induction ks as [|a r IH]; cbn [distinct]; [lia|].
  destruct (existsb (String.eqb a) r); cbn [List.length]; lia.
Qed.

Lemma distinct_full ks :
  List.length (distinct ks) = List.length ks -> NoDup ks.
Proof.
  induction ks as [|a r IH]; cbn [distinct]; [constructor|].
  destruct (existsb (String.eqb a) r) eqn:E; cbn [List.length]; intros H.
  - pose proof (distinct_length r). lia.
  - constructor; [|apply IH; lia].
    intros Hin. assert (existsb (String.eqb a) r = true) as E'.
    { apply existsb_exists. exists a. split; [exact Hin|apply String.eqb_refl]. }
    congruence.
Qed.

(** X2. [verify_invariants()] returns [True] exactly when the account ids
    are pairwise distinct (I1), every balance passes [>= 0] (I2) and every
    key of [user_pins], [payment_methods] and [spending_limits] is an
    account (I3-I5). *)
Theorem verify_invariants_decides (s : WalletSystem) :
  verify_invariants s = true
  <-> NoDup (keys (balances s))
      /\ non_negative s
      /\ keys_known (user_pins s) s
      /\ keys_known (payment_methods s) s
      /\ keys_known (spending_limits s) s.
Proof.
  unfold verify_invariants, non_negative, keys_known. split.
  - intros H. split_and.
    match goal with H : Nat.eqb _ _ = true |- _ => apply Nat.eqb_eq in H; rename H into Hlen end.
    repeat split.
    + apply distinct_full. rewrite <- Hlen. unfold keys.
      now rewrite length_map.
    + apply Forall_forall. now apply forallb_forall.
    + now apply forallb_forall.
    + now apply forallb_forall.
    + now apply forallb_forall.
  - intros (H1 & H2 & H3 & H4 & H5).
    rewrite (distinct_NoDup _ H1). unfold keys at 1.
    rewrite length_map, Nat.eqb_refl.
    rewrite (proj2 (forallb_forall _ _)).
    2:{ intros b Hb. eapply Forall_forall in H2; eauto. }
    rewrite !(proj2 (forallb_forall _ _)); auto.
Qed.

(** ** Accounts, PINs, limits and payment methods *)

(** X3. In a reachable state a [create_account] call whose preconditions
    R1-R4 hold completes without raising: the new account is appended
    after the existing ones with balance [0.0], and no other balance
    changes. *)
Theorem create_account_completes (s : WalletSystem) (user_id email password : string) :
  reachable s ->
  create_account_requires user_id email password s = true ->
  let s' := create_account_effect user_id s in
  create_account user_id email password s = (Ok tt, s')
  /\ get (balances s') user_id = Some 0
  /\ (forall v, v <> user_id -> get (balances s') v = get (balances s) v)
  /\ keys (balances s') = keys (balances s) ++ [user_id].
Proof.
  intros Hs Hreq s'.
  assert (reachable s') as Hs'
    by (apply (reachable_effect (CCreateAccount user_id email password)); auto).
  unfold create_account_requires, valid_email, valid_password in Hreq.
  split_and.
  assert (get (balances s) user_id = None) as Hnew.
  { unfold contains in *. destruct (get (balances s) user_id); [discriminate|reflexivity]. }
  split; [|split; [|split]].
  - unfold create_account. mrun.
    change (0 =? 0) with true. cbv iota.
    rewrite length_setitem_absent by exact Hnew.
    replace (List.length (balances s) + 1)%nat with (S (List.length (balances s))) by lia.
    rewrite Nat.eqb_refl.
    rewrite balances_unchanged_ok.
    + mrun. fold (with_balances s (setitem (balances s) user_id 0)).
      fold (create_account_effect user_id s). fold s'.
      rewrite (reachable_verify s' Hs'). reflexivity.
    + now apply reachable_numbers.
    + intros k b Hk _. proj. rewrite get_setitem_other; [exact Hk|].
      intros ->. congruence.
  - unfold s', create_account_effect, with_balances. proj. apply get_setitem_same.
  - intros v Hv. unfold s', create_account_effect, with_balances. proj.
    apply get_setitem_other. congruence.
  - unfold s', create_account_effect, with_balances. proj.
    rewrite keys_setitem. unfold contains. now rewrite Hnew.
Qed.

Lemma create_account_completes_witness :
  let s' := create_account_effect "carol" two_accounts in
  create_account "carol" "carol@example.org" "hunter22" two_accounts = (Ok tt, s')
  /\ get (balances s') "carol" = Some 0
  /\ (forall v, v <> "carol" -> get (balances s') v = get (balances two_accounts) v)
  /\ keys (balances s') = keys (balances two_accounts) ++ ["carol"].
Proof.
  apply (create_account_completes two_accounts "carol" "carol@example.org" "hunter22").
  - exists two_accounts_calls. reflexivity.
  - reflexivity.
Defined.

Lemma authenticate_pin_value (s : WalletSystem) (user_id pin : string) :
  contains (balances s) user_id = true ->
  authenticate_pin user_id pin s
  = (Ok match get (user_pins s) user_id with
        | Some p => String.eqb p pin
        | None => false
        end, s).
Proof.
  intros Hu. unfold authenticate_pin. mrun.
  rewrite eqb_refl by (intros; apply String.eqb_refl).
  reflexivity.
Qed.

Lemma set_pin_completes s u pin :
  reachable s -> set_pin_requires u pin s = true ->
  set_pin u pin s = (Ok tt, set_pin_effect u pin s).
Proof.
  intros Hs Hreq.
  assert (reachable (set_pin_effect u pin s)) as Hs'
    by (apply (reachable_effect (CSetPin u pin)); auto).
  unfold set_pin_requires, valid_pin in Hreq. split_and.
  unfold set_pin. mrun. rewrite String.eqb_refl.
  rewrite balances_unchanged_ok; auto using reachable_numbers.
  mrun. fold (set_pin_effect u pin s).
  rewrite (reachable_verify _ Hs'). reflexivity.
Qed.

(** X4. In a reachable state [set_pin(u, pin)] with an existing [u] and a
    PIN that passes R2-R4 (4 to 8 characters, [pin.isdigit()])
    completes; afterwards
    [authenticate_pin(u, q)] returns [pin == q] for every [q], and the PIN
    of no other user has changed. *)
Theorem set_pin_then_authenticate (s : WalletSystem) (user_id pin q : string) :
  reachable s ->
  contains (balances s) user_id = true ->
  valid_pin pin = true ->
  let s' := state_after (set_pin user_id pin) s in
  result_of (set_pin user_id pin) s = Ok tt
  /\ authenticate_pin user_id q s' = (Ok (String.eqb pin q), s')
  /\ (forall v, v <> user_id -> get (user_pins s') v = get (user_pins s) v).
Proof.
  intros Hs Hu Hpin s'.
  assert (set_pin_requires user_id pin s = true) as Hreq
    by (unfold set_pin_requires; now rewrite Hu, Hpin).
  pose proof (set_pin_completes s user_id pin Hs Hreq) as Hrun.
  unfold s', state_after, result_of. rewrite Hrun. cbn [fst snd].
  split; [reflexivity|]. split.
  - rewrite authenticate_pin_value by exact Hu.
    unfold set_pin_effect. proj. now rewrite get_setitem_same.
  - intros v Hv. unfold set_pin_effect. proj.
    apply get_setitem_other. congruence.
Qed.

Lemma set_pin_then_authenticate_witness :
  let s' := state_after (set_pin "alice" "1234") two_accounts in
  result_of (set_pin "alice" "1234") two_accounts = Ok tt
  /\ authenticate_pin "alice" "0000" s' = (Ok (String.eqb "1234" "0000"), s')
  /\ (forall v, v <> "alice" -> get (user_pins s') v = get (user_pins two_accounts) v).
Proof.
  apply (set_pin_then_authenticate two_accounts "alice" "1234" "0000").
  - exists two_accounts_calls. reflexivity.
  - reflexivity.
  - reflexivity.
Defined.

(** X5. For an existing account [authenticate_pin] raises nothing, leaves
    the state as it is and returns [True] exactly when the PIN stored for
    the user is the one given. *)
Theorem authenticate_pin_accepts_stored_pin (s : WalletSystem)
    (user_id pin : string) :
  contains (balances s) user_id = true ->
  exists ok,
    authenticate_pin user_id pin s = (Ok ok, s)
    /\ (ok = true <-> get (user_pins s) user_id = Some pin).
Proof.
  intros Hu. rewrite authenticate_pin_value by exact Hu.
  eexists. split; [reflexivity|].
  destruct (get (user_pins s) user_id) as [p|]; [|split; discriminate].
  rewrite String.eqb_eq. split; congruence.
Qed.

Lemma authenticate_pin_accepts_stored_pin_witness :
  exists ok,
    authenticate_pin "alice" "1234" two_accounts = (Ok ok, two_accounts)
    /\ (ok = true <-> get (user_pins two_accounts) "alice" = Some "1234").
Proof.
  apply (authenticate_pin_accepts_stored_pin two_accounts "alice" "1234").
  reflexivity.
Defined.

Lemma fgt_zero_number x : fgt x 0 = true -> (x =? x) = true.
Proof. intros H. now apply fge_zero_notnan, fgt_zero_fge. Qed.

Lemma of_option_eq_refl o :
  positive_or_none o = true -> value_eq (of_option o) (of_option o) = true.
Proof. destruct o as [x|]; simpl; auto using fgt_zero_number. Qed.

(** X6. In a reachable state a [set_spending_limits] call whose
    preconditions hold completes and stores a fresh record for the user:
    the two limits as given and both usage counters at [0.0], whatever
    record was there before; other users' records, the balances and the
    log are unchanged. *)
Theorem set_spending_limits_stores (s : WalletSystem) (user_id : string)
    (daily monthly : option float) :
  reachable s ->
  set_spending_limits_requires user_id daily monthly s = true ->
  let s' := state_after (set_spending_limits user_id daily monthly) s in
  result_of (set_spending_limits user_id daily monthly) s = Ok tt
  /\ get (spending_limits s') user_id
     = Some [("daily", of_option daily); ("monthly", of_option monthly);
             ("daily_used", VNum 0); ("monthly_used", VNum 0)]
  /\ (forall v, v <> user_id ->
        get (spending_limits s') v = get (spending_limits s) v)
  /\ balances s' = balances s /\ transactions s' = transactions s.
Proof.
  intros Hs Hreq s'.
  assert (set_spending_limits user_id daily monthly s
          = (Ok tt, set_spending_limits_effect user_id daily monthly s)) as Hrun.
  { unfold set_spending_limits_requires in Hreq. split_and.
    unfold set_spending_limits.
    repeat first
      [ progress mrun
      | progress cbn [rbind limits_record get String.eqb Ascii.eqb Bool.eqb]
      | rewrite of_option_eq_refl by assumption
      | progress change (value_eq (VNum 0) (VNum 0)) with true ].
    rewrite balances_unchanged_ok; auto using reachable_numbers. }
  unfold s', state_after, result_of. rewrite Hrun. cbn [fst snd].
  unfold set_spending_limits_effect. proj.
  repeat split; auto using get_setitem_same.
  intros v Hv. apply get_setitem_other. congruence.
Qed.

Lemma set_spending_limits_stores_witness :
  let s' := state_after (set_spending_limits "alice" (Some 100) None) two_accounts in
  result_of (set_spending_limits "alice" (Some 100) None) two_accounts = Ok tt
  /\ get (spending_limits s') "alice"
     = Some [("daily", of_option (Some 100)); ("monthly", of_option None);
             ("daily_used", VNum 0); ("monthly_used", VNum 0)]
  /\ (forall v, v <> "alice" ->
        get (spending_limits s') v = get (spending_limits two_accounts) v)
  /\ balances s' = balances two_accounts
  /\ transactions s' = transactions two_accounts.
Proof.
  apply (set_spending_limits_stores two_accounts "alice" (Some 100) None).
  - exists two_accounts_calls. reflexivity.
  - reflexivity.
Defined.

Lemma get_payment_methods_value (s : WalletSystem) (user_id : string) :
  contains (balances s) user_id = true ->
  get_payment_methods user_id s = (Ok (methods_of user_id s), s).
Proof.
  intros Hu. unfold get_payment_methods. mrun.
  rewrite eqb_refl; [reflexivity|].
  intros l _. apply list_eqb_refl. apply method_same_refl.
Qed.

Lemma list_in_last {A} (same : A -> A -> bool) (x : A) (l : list A) :
  same x x = true -> list_in same x (l ++ [x]) = true.
Proof.
  intros H. unfold list_in. rewrite existsb_app. cbn. rewrite H.
  now rewrite orb_true_r.
Qed.

Lemma add_payment_method_completes s u m :
  Forall is_number (values (balances s)) ->
  add_payment_method_requires u m s = true ->
  add_payment_method u m s = (Ok tt, add_payment_method_effect u m s).
Proof.
  intros Hnum Hreq. unfold add_payment_method_requires in Hreq.
  destruct (get m "type") as [ty|] eqn:Hty;
    [|rewrite andb_false_r in Hreq; discriminate].
  split_and.
  unfold add_payment_method, add_payment_method_effect, methods_of.
  destruct (get (payment_methods s) u) as [l|] eqn:Hpm.
  - mrun. rewrite list_in_last by apply method_same_refl.
    rewrite length_app. cbn [List.length]. rewrite Nat.eqb_refl.
    rewrite balances_unchanged_ok; auto.
  - mrun. rewrite bind_bind. mrun. rewrite setitem_setitem_same.
    mrun. rewrite list_in_last by apply method_same_refl.
    cbn [app List.length Nat.add Nat.eqb].
    rewrite balances_unchanged_ok; auto.
Qed.

(** X7. In a reachable state [add_payment_method(u, method)] with an
    existing [u] and a [method] whose ["type"] is one of ["card"],
    ["bank_account"], ["paypal"] completes; [get_payment_methods(u)] then
    returns the former list with [method] at its end, and the lists of
    other users are unchanged. *)
Theorem add_then_get_payment_methods (s : WalletSystem) (user_id : string)
    (method : Method) (ty : Value) :
  reachable s ->
  contains (balances s) user_id = true ->
  get method "type" = Some ty ->
  existsb (value_eq ty) payment_types = true ->
  let s' := state_after (add_payment_method user_id method) s in
  result_of (add_payment_method user_id method) s = Ok tt
  /\ get_payment_methods user_id s'
     = (Ok (methods_of user_id s ++ [method]), s')
  /\ (forall v, v <> user_id -> methods_of v s' = methods_of v s).
Proof.
  intros Hs Hu Hty Hok s'.
  assert (add_payment_method_requires user_id method s = true) as Hreq
    by (unfold add_payment_method_requires; now rewrite Hu, Hty, Hok).
  pose proof (add_payment_method_completes s user_id method
                (reachable_numbers s Hs) Hreq) as Hrun.
  unfold s', state_after, result_of. rewrite Hrun. cbn [fst snd].
  split; [reflexivity|]. split.
  - rewrite get_payment_methods_value
      by (unfold add_payment_method_effect; proj; exact Hu).
    unfold methods_of at 1, add_payment_method_effect. proj.
    now rewrite get_setitem_same.
  - intros v Hv. unfold methods_of, add_payment_method_effect. proj.
    rewrite get_setitem_other by congruence. reflexivity.
Qed.

Lemma add_then_get_payment_methods_witness :
  let m := [("type", VStr "card"); ("number", VStr "4111")] in
  let s' := state_after (add_payment_method "alice" m) two_accounts in
  result_of (add_payment_method "alice" m) two_accounts = Ok tt
  /\ get_payment_methods "alice" s'
     = (Ok (methods_of "alice" two_accounts ++ [m]), s')
  /\ (forall v, v <> "alice" -> methods_of v s' = methods_of v two_accounts).
Proof.
  apply (add_then_get_payment_methods two_accounts "alice"
           [("type", VStr "card"); ("number", VStr "4111")] (VStr "card")).
  - exists two_accounts_calls. reflexivity.
  - reflexivity.
  - reflexivity.
  - reflexivity.
Defined.

(** ** What a call may write *)

Lemma loop_keys env rate users k s :
  keys (balances (state_after (apply_interest_loop env rate users k) s))
  = keys (balances s).
Proof.
  apply (loop_preserves (fun s' => keys (balances s') = keys (balances s)));
    [|reflexivity].
  intros s0 u old x t H0 Hu. proj. rewrite keys_setitem_present; [exact H0|].
  unfold contains. now rewrite Hu.
Qed.

Lemma loop_frame env rate users k s :
  let s' := state_after (apply_interest_loop env rate users k) s in
  user_pins s' = user_pins s
  /\ payment_methods s' = payment_methods s
  /\ spending_limits s' = spending_limits s.
Proof.
  apply (loop_preserves (fun s' => user_pins s' = user_pins s
                                   /\ payment_methods s' = payment_methods s
                                   /\ spending_limits s' = spending_limits s));
    [|auto].
  intros s0 u old x t H0 _. exact H0.
Qed.

(** X8. Each auxiliary record has one writer: only [set_pin] changes
    [user_pins], only [add_payment_method] changes [payment_methods], only
    [set_spending_limits] changes [spending_limits]; and only
    [create_account] changes the sequence of account ids, by appending
    its [user_id].  No call removes or reorders accounts, whether it
    completes or raises. *)
Theorem one_writer_per_record (c : Call) (s : WalletSystem) :
  let s' := state_after (call c) s in
  match c with
  | CSetPin _ _ => True
  | _ => user_pins s' = user_pins s
  end
  /\ match c with
     | CAddPaymentMethod _ _ => True
     | _ => payment_methods s' = payment_methods s
     end
  /\ match c with
     | CSetSpendingLimits _ _ _ => True
     | _ => spending_limits s' = spending_limits s
     end
  /\ match c with
     | CCreateAccount u _ _ =>
         keys (balances s') = keys (balances s)
         \/ keys (balances s') = keys (balances s) ++ [u]
     | _ => keys (balances s') = keys (balances s)
     end.
Proof.
  intros s'. unfold s'. rewrite call_state.
  destruct (requires c s) eqn:Hreq;
    [|destruct c; repeat split; auto].
  destruct c; cbn [effect]; repeat split; auto.
  - unfold create_account_effect, with_balances. proj.
    rewrite keys_setitem. destruct (contains _ _); auto.
  - unfold add_funds_effect. destruct (get _ _); reflexivity.
  - unfold add_funds_effect. destruct (get _ _); reflexivity.
  - unfold add_funds_effect. destruct (get _ _); reflexivity.
  - unfold add_funds_effect. destruct (get _ _) eqn:E; [|reflexivity]. proj.
    apply keys_setitem_present. unfold contains. now rewrite E.
  - unfold withdraw_funds_effect. destruct (get _ _); reflexivity.
  - unfold withdraw_funds_effect. destruct (get _ _); reflexivity.
  - unfold withdraw_funds_effect. destruct (get _ _); reflexivity.
  - unfold withdraw_funds_effect. destruct (get _ _) eqn:E; [|reflexivity]. proj.
    apply keys_setitem_present. unfold contains. now rewrite E.
  - unfold transfer_effect. destruct (get _ _); [destruct (get _ _)|]; reflexivity.
  - unfold transfer_effect. destruct (get _ _); [destruct (get _ _)|]; reflexivity.
  - unfold transfer_effect. destruct (get _ _); [destruct (get _ _)|]; reflexivity.
  - unfold transfer_effect.
    destruct (get (balances s) sender) eqn:E1; [|reflexivity].
    destruct (get (balances s) receiver) eqn:E2; [|reflexivity]. proj.
    rewrite keys_setitem_present.
    + apply keys_setitem_present. unfold contains. now rewrite E1.
    + apply contains_setitem. unfold contains. now rewrite E2.
  - apply loop_frame.
  - apply loop_frame.
  - apply loop_frame.
  - apply loop_keys.
  - unfold real_time_update_effect. destruct (get _ _); reflexivity.
  - unfold real_time_update_effect. destruct (get _ _); reflexivity.
  - unfold real_time_update_effect. destruct (get _ _); reflexivity.
  - unfold real_time_update_effect. destruct (get _ _) eqn:E; [|reflexivity]. proj.
    apply keys_setitem_present. unfold contains. now rewrite E.
Qed.

Lemma loop_with_limits env rate users l : forall k s,
  apply_interest_loop env rate users k (with_limits s l)
  = (fst (apply_interest_loop env rate users k s),
     with_limits (snd (apply_interest_loop env rate users k s)) l).
Proof.
  induction users as [|u rest IH]; intros k s; [reflexivity|].
  rewrite !loop_step. cbn [with_limits balances].
  destruct (get (balances s) u) as [old|]; [|reflexivity].
  apply (IH (S k) (mkWallet (setitem (balances s) u (old + old * rate))
                     (transactions s ++ [interest_tx env k u (old * rate)])
                     (user_pins s) (payment_methods s) (spending_limits s))).
Qed.

(** X9. The stored spending limits are never enforced: for every call
    other than [set_spending_limits], replacing [spending_limits] by any
    other dictionary changes neither the preconditions nor the state the
    call leaves.  (Only [verify_invariants] reads the dictionary, for its
    keys, in a final [assert].) *)
Theorem spending_limits_never_enforced (c : Call) (s : WalletSystem)
    (l : dict Limits) :
  match c with
  | CSetSpendingLimits _ _ _ => True
  | _ => requires c (with_limits s l) = requires c s
         /\ state_after (call c) (with_limits s l)
            = with_limits (state_after (call c) s) l
  end.
Proof.
  destruct c; try exact I;
    (split; [reflexivity|]);
    rewrite !call_state;
    change (requires ?c (with_limits s l)) with (requires c s);
    cbn [requires effect];
    try match goal with |- context [if ?b then _ else _] => destruct b end;
    try reflexivity.
  - unfold add_funds_effect. cbn [with_limits balances].
    destruct (get _ _); reflexivity.
  - unfold withdraw_funds_effect. cbn [with_limits balances].
    destruct (get _ _); reflexivity.
  - unfold transfer_effect. cbn [with_limits balances].
    destruct (get _ _); [destruct (get _ _)|]; reflexivity.
  - unfold apply_interest_effect, state_after. cbn [with_limits balances].
    now rewrite loop_with_limits.
  - unfold real_time_update_effect. cbn [with_limits balances].
    destruct (get _ _); reflexivity.
Qed.

(** ** The transaction history *)

Lemma track_transactions_value u f p ps s r :
  result_of (track_transactions u f p ps) s = Ok r ->
  r = slice ((p - 1) * ps) ((p - 1) * ps + ps) (sort_desc (selected u f s)).
Proof.
  unfold result_of, track_transactions, selected. mok.
  unfold ret. cbn [fst]. now intros [= <-].
Qed.

Lemma apply_filters_sound t fs : forall l,
  In t (apply_filters fs l) ->
  forall k v, In (k, v) fs -> value_eq (get_value t k) v = true.
Proof.
  induction fs as [|kv fs IH]; intros l Ht k v Hkv; [destruct Hkv|].
  change (apply_filters (kv :: fs) l)
    with (apply_filters fs
            (filter (fun t => value_eq (get_value t (fst kv)) (snd kv)) l)) in Ht.
  destruct Hkv as [->|Hkv].
  - apply In_apply_filters in Ht. apply filter_In in Ht. exact (proj2 Ht).
  - eapply IH; eauto.
Qed.

(** X10. Every transaction [track_transactions] returns is in the log,
    involves the user (as ["user_id"], ["from"] or ["to"]) and agrees
    with every [key: value] pair of [filters]. *)
Theorem track_transactions_filters (s : WalletSystem) (user_id : string)
    (filters : dict Value) (page page_size : Z) (r : list Tx) :
  result_of (track_transactions user_id (Some filters) page page_size) s = Ok r ->
  forall t, In t r ->
    In t (transactions s)
    /\ involves user_id t = true
    /\ (forall k v, In (k, v) filters -> value_eq (get_value t k) v = true).
Proof.
  intros Hr t Ht. apply track_transactions_value in Hr. subst r.
  apply In_slice, In_sort_desc in Ht. unfold selected in Ht.
  destruct filters as [|kv f].
  - apply filter_In in Ht. destruct Ht. repeat split; auto.
  - pose proof (apply_filters_sound _ _ _ Ht) as Hf.
    apply In_apply_filters, filter_In in Ht. destruct Ht. auto.
Qed.

Lemma track_transactions_filters_witness :
  Forall (fun t =>
            In t (transactions two_accounts)
            /\ involves "alice" t = true
            /\ (forall k v, In (k, v) [("type", VStr "deposit")] ->
                            value_eq (get_value t k) v = true))
         (page_of "alice" (Some [("type", VStr "deposit")]) 25 two_accounts 1).
Proof.
  apply Forall_forall.
  apply (track_transactions_filters two_accounts "alice"
           [("type", VStr "deposit")] 1 25).
  reflexivity.
Defined.

Lemma insert_desc_perm x l : Permutation (insert_desc x l) (x :: l).
Proof.
  induction l as [|h r IH]; cbn [insert_desc]; [reflexivity|].
  destruct (timestamp h <=? timestamp x); [reflexivity|].
  rewrite IH. apply perm_swap.
Qed.

Lemma sort_desc_perm l : Permutation (sort_desc l) l.
Proof.
  induction l as [|h r IH]; cbn [sort_desc fold_right]; [reflexivity|].
  rewrite insert_desc_perm. now constructor.
Qed.

Lemma firstn_plus {A} (n m : nat) : forall l : list A,
  firstn (n + m) l = firstn n l ++ firstn m (skipn n l).
Proof.
  induction n as [|n IH]; intros l; [reflexivity|].
  destruct l as [|a l]; cbn [Nat.add firstn skipn app].
  - now rewrite firstn_nil.
  - now rewrite IH.
Qed.

Lemma page_of_slice cs u f ps p :
  Forall clock_ok cs ->
  contains (balances (run cs init)) u = true ->
  (1 <= ps <= 100)%Z ->
  page_of u f ps (run cs init) (S p)
  = firstn (Z.to_nat ps)
      (skipn (p * Z.to_nat ps) (sort_desc (selected u f (run cs init)))).
Proof.
  intros Hc Hu Hps. unfold page_of.
  destruct (track_transactions_ok (run cs init) u f (Z.of_nat (S p)) ps)
    as (r & Hr & _); auto; try lia.
  - eapply Forall_impl; [|apply (run_non_negative cs init); constructor].
    intros b. apply fge_zero_notnan.
  - apply run_log_timed; [exact Hc | constructor].
  - unfold result_of. rewrite Hr. cbn [fst].
    assert (result_of (track_transactions u f (Z.of_nat (S p)) ps) (run cs init) = Ok r)
      as Hv by (unfold result_of; now rewrite Hr).
    apply track_transactions_value in Hv. rewrite Hv. unfold slice.
    f_equal; [f_equal; lia|]. f_equal. nia.
Qed.

(** X11. In a reachable state whose clock readings were numbers, for an
    existing user and [1 <= page_size <= 100], reading pages 1, 2, ..., n
    in turn yields the first [n * page_size] entries of one list, sorted
    by descending timestamp, that is a permutation of the transactions
    selected for the user: no selected transaction is skipped or
    repeated across pages. *)
Theorem pages_cover_the_selection (cs : list Call) (user_id : string)
    (filters : option (dict Value)) (page_size : Z) (n : nat) :
  Forall clock_ok cs ->
  contains (balances (run cs init)) user_id = true ->
  (1 <= page_size <= 100)%Z ->
  exists sorted,
    Permutation sorted (selected user_id filters (run cs init))
    /\ sorted_desc sorted = true
    /\ List.concat (map (page_of user_id filters page_size (run cs init)) (seq 1 n))
       = firstn (n * Z.to_nat page_size) sorted.
Proof.
  intros Hc Hu Hps.
  exists (sort_desc (selected user_id filters (run cs init))).
  split; [apply sort_desc_perm|]. split.
  - apply sort_desc_sorted. apply Forall_forall. intros t Ht.
    assert (In t (transactions (run cs init))) as Hin.
    { unfold selected in Ht.
      destruct filters as [[|kv f]|]; try apply In_apply_filters in Ht;
        apply filter_In in Ht; tauto. }
    pose proof (run_log_timed cs init Hc (Forall_nil _)) as Hlog.
    eapply Forall_forall in Hlog; eauto.
  - induction n as [|n IH]; [reflexivity|].
    rewrite seq_S, map_app, List.concat_app, IH. cbn [map List.concat Nat.add].
    rewrite app_nil_r, page_of_slice by assumption.
    replace (S n * Z.to_nat page_size)%nat
      with (n * Z.to_nat page_size + Z.to_nat page_size)%nat by lia.
    now rewrite firstn_plus.
Qed.

Lemma pages_cover_the_selection_witness :
  exists sorted,
    Permutation sorted (selected "alice" None (run two_accounts_calls init))
    /\ sorted_desc sorted = true
    /\ List.concat (map (page_of "alice" None 1 (run two_accounts_calls init))
                        (seq 1 2))
       = firstn (2 * Z.to_nat 1) sorted.
Proof.
  apply (pages_cover_the_selection two_accounts_calls "alice" None 1 2).
  - repeat constructor; intros k; reflexivity.
  - reflexivity.
  - lia.
Defined.

(** ** More binary64 facts *)

Lemma SFadd_ge_left mb eb ma ea :
  valid_binary (S754_finite false mb eb) = true ->
  valid_binary (S754_finite false ma ea) = true ->
  valid_binary (SF64add (S754_finite false mb eb) (S754_finite false ma ea)) = true ->
  SFleb (S754_finite false mb eb)
        (SF64add (S754_finite false mb eb) (S754_finite false ma ea)) = true.
Proof.
  intros Vb Va Vr.
  pose proof (valid_finite_bounds _ _ _ Vb) as (Heb & Hdb & _).
  pose proof (valid_finite_bounds _ _ _ Va) as (Hea & _ & _).
  assert (fexp prec emax (Zpos (digits2_pos mb) + eb) = eb) as Hcan.
  { simpl in Vb. unfold bounded, canonical_mantissa in Vb.
    apply andb_prop in Vb. destruct Vb as [Vb _]. now apply Z.eqb_eq in Vb. }
  revert Vr. unfold SF64add, SFadd. cbn [cond_Zopp].
  rewrite !shl_align_fst.
  set (ez := Z.min eb ea).
  set (M := (_ + _)%Z).
  assert (exists p, M = Zpos p /\ (scaled (Zpos mb) eb <= scaled (Zpos p) ez)%Z)
    as (p & -> & Hle).
  { unfold M, scaled.
    assert (0 < 2 ^ (ez + 1074))%Z by (apply pow2_pos; unfold ez; lia).
    destruct (Z.ltb_spec ez eb), (Z.ltb_spec ez ea).
    - unfold ez in *. lia.
    - assert (ez = ea) as -> by (unfold ez in *; lia).
      assert (0 < 2 ^ (eb - ea))%Z by (apply pow2_pos; lia).
      destruct (Zpos mb * 2 ^ (eb - ea) + Zpos ma)%Z as [|p|p] eqn:Ep; try lia.
      exists p. split; [reflexivity|].
      replace (eb + 1074)%Z with ((eb - ea) + (ea + 1074))%Z by lia.
      rewrite (pow2_split (eb - ea) (ea + 1074)) by lia. nia.
    - assert (ez = eb) as -> by (unfold ez in *; lia).
      assert (0 < 2 ^ (ea - eb))%Z by (apply pow2_pos; lia).
      destruct (Zpos mb + Zpos ma * 2 ^ (ea - eb))%Z as [|p|p] eqn:Ep; try lia.
      exists p. split; [reflexivity|]. nia.
    - assert (ez = eb) as -> by (unfold ez in *; lia).
      destruct (Zpos mb + Zpos ma)%Z as [|p|p] eqn:Ep; try lia.
      exists p. split; [reflexivity|]. nia. }
  cbn [binary_normalize].
  destruct (binary_round_lower p ez mb eb) as [->|(mr & er & -> & Hr)];
    auto; try (unfold ez; lia).
  intros Vr. now apply SFleb_of_scaled.
Qed.

(** [b >= 0] and [a >= 0] give [b + a >= b]. *)
Lemma add_ge_left b a :
  fge b 0 = true -> fge a 0 = true -> fge (b + a) b = true.
Proof.
  intros Hb Ha. unfold fge. rewrite leb_spec, add_spec.
  pose proof (Prim2SF_valid b) as Vb. pose proof (Prim2SF_valid a) as Va.
  pose proof (Prim2SF_valid (b + a)) as Vr. rewrite add_spec in Vr.
  apply fge_zero_nonneg in Hb, Ha.
  destruct (Prim2SF b) as [sb|sb| |sb mb eb]; simpl in Hb; try tauto;
    destruct (Prim2SF a) as [sa|sa| |sa ma ea]; simpl in Ha; try tauto;
    subst; try reflexivity.
  - destruct sb, sa; reflexivity.
  - apply SFleb_refl_finite.
  - now apply SFadd_ge_left.
Qed.

Lemma zero_add a : fgt a 0 = true -> 0 + a = a.
Proof.
  intros Ha. apply Prim2SF_inj. rewrite add_spec, Prim2SF_zero.
  unfold fgt in Ha. rewrite ltb_spec, Prim2SF_zero in Ha.
  destruct (Prim2SF a) as [sa|sa| |sa ma ea]; try discriminate Ha; reflexivity.
Qed.

Lemma sub_self a :
  fgt a 0 = true -> sf_finite (Prim2SF a) -> a - a = 0.
Proof.
  intros Ha Hfin. apply Prim2SF_inj. rewrite sub_spec, Prim2SF_zero.
  unfold fgt in Ha. rewrite ltb_spec, Prim2SF_zero in Ha.
  destruct (Prim2SF a) as [sa|sa| |sa ma ea]; simpl in Hfin; try tauto;
    try discriminate Ha.
  destruct sa; [discriminate Ha|].
  unfold SF64sub, SFsub. cbn [cond_Zopp]. now rewrite Z.sub_diag.
Qed.

Lemma finite_below_inf a : sf_finite (Prim2SF a) -> (a <? inf) = true.
Proof.
  rewrite ltb_spec, Prim2SF_inf.
  destruct (Prim2SF a) as [sa|sa| |sa ma ea]; simpl; try tauto; reflexivity.
Qed.

Lemma fge_refl x : (x =? x) = true -> fge x x = true.
Proof.
  unfold fge. rewrite eqb_spec, leb_spec. unfold SFeqb, SFleb.
  destruct (SFcompare (Prim2SF x) (Prim2SF x)) as [[| |]|]; congruence.
Qed.

Lemma add_inf b : fge b 0 = true -> b + inf = inf.
Proof.
  intros Hb. apply Prim2SF_inj. rewrite add_spec, Prim2SF_inf.
  apply fge_zero_nonneg in Hb.
  destruct (Prim2SF b) as [sb|sb| |sb mb eb]; simpl in Hb; try tauto;
    subst; reflexivity.
Qed.

Lemma nan_comparisons x :
  (x =? x) = false ->
  (0 <? x) = false /\ (forall b, fge b (abs x) = false).
Proof.
  intros Hx.
  assert (Prim2SF x = S754_nan) as E.
  { rewrite eqb_spec in Hx. unfold SFeqb in Hx.
    destruct (Prim2SF x) as [s|s| |s m e]; try reflexivity; exfalso.
    - discriminate Hx.
    - destruct s; discriminate Hx.
    - unfold SFcompare in Hx.
      rewrite Z.compare_refl, Pos.compare_cont_refl in Hx.
      destruct s; discriminate Hx. }
  split.
  - rewrite ltb_spec, E, Prim2SF_zero. reflexivity.
  - intros b. unfold fge. rewrite leb_spec, abs_spec, E. reflexivity.
Qed.

(** [d - d] is [0.0] for a finite [d >= 0]. *)
Lemma sub_self_nonneg d :
  fge d 0 = true -> (d <? inf) = true -> d - d = 0.
Proof.
  intros Hd Hinf. apply Prim2SF_inj. rewrite sub_spec, Prim2SF_zero.
  apply fge_zero_nonneg in Hd. rewrite ltb_spec, Prim2SF_inf in Hinf.
  destruct (Prim2SF d) as [s|s| |s m e]; simpl in Hd; try tauto.
  - destruct s; reflexivity.
  - subst. discriminate Hinf.
  - subst. unfold SF64sub, SFsub. cbn [cond_Zopp]. now rewrite Z.sub_diag.
Qed.

(** [sum([d]) - d] is [0.0] for a finite [d >= 0]. *)
Lemma one_summand_exact d :
  fge d 0 = true -> (d <? inf) = true -> abs (0 + d - d) = 0.
Proof.
  intros Hd Hinf. apply Prim2SF_inj.
  rewrite abs_spec, sub_spec, add_spec, Prim2SF_zero.
  apply fge_zero_nonneg in Hd. rewrite ltb_spec, Prim2SF_inf in Hinf.
  destruct (Prim2SF d) as [s|s| |s m e]; simpl in Hd; try tauto.
  - destruct s; reflexivity.
  - subst. discriminate Hinf.
  - subst.
    change (SF64add (S754_zero false) (S754_finite false m e))
      with (S754_finite false m e).
    unfold SF64sub, SFsub. cbn [cond_Zopp]. now rewrite Z.sub_diag.
Qed.

Lemma zero_add_add b a :
  fge b 0 = true -> fgt a 0 = true -> 0 + b + a = b + a.
Proof.
  intros Hb Ha. apply Prim2SF_inj. rewrite !add_spec, Prim2SF_zero.
  apply fge_zero_nonneg in Hb. unfold fgt in Ha.
  rewrite ltb_spec, Prim2SF_zero in Ha.
  destruct (Prim2SF b) as [sb|sb| |sb mb eb]; simpl in Hb; try tauto;
    subst; try reflexivity.
  destruct (Prim2SF a) as [sa|sa| |sa ma ea]; try discriminate Ha;
    destruct sb; reflexivity.
Qed.

Lemma fgt_of_fge x a :
  fge x a = true -> fgt a 0 = true -> fgt x 0 = true.
Proof.
  unfold fge, fgt. rewrite leb_spec, !ltb_spec, Prim2SF_zero.
  destruct (Prim2SF a) as [sa|sa| |sa ma ea]; try discriminate;
    destruct (Prim2SF x) as [sx|sx| |sx mx ex]; try discriminate;
    destruct sa, sx; try discriminate; reflexivity.
Qed.

Lemma sub_self_below x :
  (0 <? x) = true -> (x <=? 1000000) = true -> abs (x - x) = 0.
Proof.
  intros H0 H1.
  assert (fge x 0 = true) as Hx by (apply fgt_zero_fge; exact H0).
  rewrite sub_self_nonneg; [reflexivity|exact Hx|].
  revert H0 H1. rewrite !ltb_spec, leb_spec, Prim2SF_zero, Prim2SF_inf.
  destruct (Prim2SF x) as [s|s| |s m e]; try discriminate; try reflexivity.
  destruct s; [discriminate|]. intros _ H. vm_compute in H. discriminate.
Qed.

(** [(l + [x])[-1:]] is [[x]]. *)
Lemma tail_slice_last {A} (l : list A) (x : A) :
  tail_slice 1 (l ++ [x]) = [x].
Proof.
  unfold tail_slice. rewrite length_app. cbn [List.length].
  replace (List.length l + 1 - 1)%nat with (List.length l + 0)%nat by lia.
  rewrite skipn_app, Nat.add_0_r, skipn_all.
  replace (List.length l - List.length l)%nat with 0%nat by lia.
  reflexivity.
Qed.

(** ** Deposits, withdrawals and updates *)

(** X12. On a balance of [0.0] a deposit of [0 < amount <= 10_000] is
    exact, and withdrawing the same amount to a valid bank account leaves
    exactly [0.0]; the preconditions of both calls hold. *)
Theorem zero_balance_round_trip (env1 env2 : Env) (u bank : string)
    (amount : float) (s : WalletSystem) :
  get (balances s) u = Some 0 ->
  (0 <? amount) = true ->
  (amount <=? 10000) = true ->
  valid_bank_account bank = true ->
  let s1 := state_after (add_funds env1 u amount) s in
  let s2 := state_after (withdraw_funds env2 u bank amount) s1 in
  add_funds_requires u amount s = true
  /\ withdraw_funds_requires u bank amount s1 = true
  /\ get (balances s1) u = Some amount
  /\ get (balances s2) u = Some 0.
Proof.
  intros Hb H0 H1 Hbank s1 s2.
  assert (sf_finite (Prim2SF amount)) as Hfin by auto using below_10000_finite.
  assert (add_funds_requires u amount s = true) as R1.
  { unfold add_funds_requires, fgt.
    rewrite Hb, H0, (leb_10000_1000000 _ H1), zero_add by exact H0.
    now rewrite finite_below_inf. }
  assert (s1 = add_funds_effect env1 u amount s) as E1
    by (apply add_funds_state; exact R1).
  unfold add_funds_effect in E1. rewrite Hb, zero_add in E1 by exact H0.
  assert (get (balances s1) u = Some amount) as Hb1
    by (rewrite E1; apply get_setitem_same).
  assert (withdraw_funds_requires u bank amount s1 = true) as R2.
  { unfold withdraw_funds_requires.
    rewrite Hb1, Hbank, H0, H1, sub_self by assumption.
    rewrite fge_refl by (now apply fgt_zero_number). reflexivity. }
  assert (s2 = withdraw_funds_effect env2 u bank amount s1) as E2
    by (apply withdraw_funds_state; exact R2).
  unfold withdraw_funds_effect in E2. rewrite Hb1, sub_self in E2 by assumption.
  repeat split; auto. rewrite E2. apply get_setitem_same.
Qed.

Lemma zero_balance_round_trip_witness :
  let s := run [CCreateAccount "alice" "alice@example.org" "password123"] init in
  let s1 := state_after (add_funds (env_at 1000) "alice" f0_1) s in
  let s2 := state_after
              (withdraw_funds (env_at 1001) "alice" "PT50000201231234567890154" f0_1)
              s1 in
  add_funds_requires "alice" f0_1 s = true
  /\ withdraw_funds_requires "alice" "PT50000201231234567890154" f0_1 s1 = true
  /\ get (balances s1) "alice" = Some f0_1
  /\ get (balances s2) "alice" = Some 0.
Proof.
  apply (zero_balance_round_trip (env_at 1000) (env_at 1001) "alice"
           "PT50000201231234567890154" f0_1
           (run [CCreateAccount "alice" "alice@example.org" "password123"] init));
    reflexivity.
Defined.

(** X13. In a reachable wallet with a single account, an [add_funds] call
    whose preconditions R1-R4 hold completes: none of E1-E6 fails, and
    the state is the deposit's effect. *)
Theorem add_funds_completes_single_account (env : Env) (u : string)
    (amount b : float) (s : WalletSystem) :
  reachable s ->
  balances s = [(u, b)] ->
  add_funds_requires u amount s = true ->
  add_funds env u amount s = (Ok tt, add_funds_effect env u amount s).
Proof.
  intros Hs Hbal Hreq.
  assert (reachable (add_funds_effect env u amount s)) as Hs'
    by (apply (reachable_effect (CAddFunds env u amount)); auto).
  apply reachable_verify in Hs'.
  assert (get (balances s) u = Some b) as Hb
    by (rewrite Hbal; cbn [get]; now rewrite String.eqb_refl).
  assert (fge b 0 = true) as Hb0
    by (eapply balance_nonneg; [apply reachable_non_negative|]; eauto).
  unfold add_funds_requires in Hreq. unfold add_funds_effect in *.
  rewrite Hb in *. split_and.
  assert (fge (b + amount) 0 = true) as Hd0
    by (apply (add_nonneg b amount); auto using fgt_zero_fge).
  unfold add_funds. mrun.
  rewrite sub_self_nonneg by assumption.
  change (abs 0 <? tol_1e9) with true. cbv iota.
  rewrite balances_unchanged_ok.
  2:{ now apply reachable_numbers. }
  2:{ intros k x Hk Hsk. proj. rewrite get_setitem_other; [exact Hk|].
      intros ->. now rewrite String.eqb_refl in Hsk. }
  mrun. rewrite Hbal.
  cbn [setitem values map snd py_sum fold_left].
  rewrite String.eqb_refl. cbn [map snd fold_left].
  rewrite zero_add_add, one_summand_exact by assumption.
  change (0 <? tol_1e9) with true. cbv iota.
  mrun. rewrite tail_slice_last.
  cbn [any_res deposit_tx get String.eqb Ascii.eqb Bool.eqb rbind value_eq as_float].
  rewrite String.eqb_refl, sub_self_below by assumption.
  change (0 <? tol_1e9) with true. cbn [rbind]. mrun.
  rewrite length_app. cbn [List.length]. rewrite Nat.eqb_refl. mrun.
  rewrite Hbal in Hs'. cbn [setitem] in Hs'. rewrite String.eqb_refl in Hs'.
  rewrite Hs'. reflexivity.
Qed.

Lemma add_funds_completes_single_account_witness :
  add_funds env0 "alice" f0_2 dime
  = (Ok tt, add_funds_effect env0 "alice" f0_2 dime).
Proof.
  apply (add_funds_completes_single_account env0 "alice" f0_2 f0_1 dime).
  - exists dime_calls. reflexivity.
  - reflexivity.
  - reflexivity.
Defined.

(** X14. In a reachable wallet with a single account, a [withdraw_funds]
    call whose preconditions R1-R5 hold and whose new balance
    [balance - amount] is finite completes: none of E1-E5 fails, and the
    state is the withdrawal's effect.  (A balance of [inf] passes R1-R5
    and then fails E1.) *)
Theorem withdraw_funds_completes_single_account (env : Env)
    (u bank : string) (amount b : float) (s : WalletSystem) :
  reachable s ->
  balances s = [(u, b)] ->
  withdraw_funds_requires u bank amount s = true ->
  (b - amount <? inf) = true ->
  withdraw_funds env u bank amount s
  = (Ok tt, withdraw_funds_effect env u bank amount s).
Proof.
  intros Hs Hbal Hreq Hfin.
  assert (reachable (withdraw_funds_effect env u bank amount s)) as Hs'
    by (apply (reachable_effect (CWithdrawFunds env u bank amount)); auto).
  apply reachable_verify in Hs'.
  assert (get (balances s) u = Some b) as Hb
    by (rewrite Hbal; cbn [get]; now rewrite String.eqb_refl).
  unfold withdraw_funds_requires, valid_bank_account in Hreq.
  unfold withdraw_funds_effect in *.
  rewrite Hb in *. split_and.
  assert (fgt b 0 = true) as Hb0 by (apply (fgt_of_fge b amount); assumption).
  unfold withdraw_funds. mrun.
  rewrite sub_self_nonneg by assumption.
  change (abs 0 <? tol_1e9) with true. cbv iota.
  rewrite balances_unchanged_ok.
  2:{ now apply reachable_numbers. }
  2:{ intros k x Hk Hsk. proj. rewrite get_setitem_other; [exact Hk|].
      intros ->. now rewrite String.eqb_refl in Hsk. }
  mrun. rewrite Hbal.
  cbn [setitem values map snd py_sum fold_left].
  rewrite String.eqb_refl. cbn [map snd fold_left].
  rewrite (zero_add b), one_summand_exact by assumption.
  change (0 <? tol_1e9) with true. cbv iota.
  mrun. rewrite tail_slice_last.
  cbn [any_res withdrawal_tx get get_value String.eqb Ascii.eqb Bool.eqb
       rbind value_eq].
  rewrite String.eqb_refl. mrun.
  rewrite Hbal in Hs'. cbn [setitem] in Hs'. rewrite String.eqb_refl in Hs'.
  rewrite Hs'. reflexivity.
Qed.

Lemma withdraw_funds_completes_single_account_witness :
  withdraw_funds env0 "alice" "PT50000201231234567890154" f0_1 hundred
  = (Ok tt,
     withdraw_funds_effect env0 "alice" "PT50000201231234567890154" f0_1
       hundred).
Proof.
  apply (withdraw_funds_completes_single_account env0 "alice"
           "PT50000201231234567890154" f0_1 100 hundred).
  - exists hundred_calls. reflexivity.
  - reflexivity.
  - reflexivity.
  - reflexivity.
Defined.

(** X15. With non-negative balances, an [add_funds] call whose
    preconditions hold leaves the user a balance that is at least the old
    balance and at least the amount, whatever the rounding. *)
Theorem add_funds_never_lowers (env : Env) (u : string) (amount b : float)
    (s : WalletSystem) :
  non_negative s ->
  get (balances s) u = Some b ->
  add_funds_requires u amount s = true ->
  exists b',
    get (balances (state_after (add_funds env u amount) s)) u = Some b'
    /\ fge b' b = true /\ fge b' amount = true.
Proof.
  intros Hs Hb Hreq.
  rewrite add_funds_state by exact Hreq.
  unfold add_funds_requires, add_funds_effect in *. rewrite Hb in *.
  split_and.
  assert (fge b 0 = true) as Hb0 by eauto using balance_nonneg.
  exists (b + amount). proj. split; [apply get_setitem_same|]. split.
  - apply add_ge_left; auto using fgt_zero_fge.
  - apply add_ge_right; auto.
    apply (add_below_inf_finite b amount); auto using fgt_zero_fge.
Qed.

Lemma add_funds_never_lowers_witness :
  exists b',
    get (balances (state_after (add_funds env0 "alice" f0_1) small_accounts)) "alice"
    = Some b'
    /\ fge b' f0_3 = true /\ fge b' f0_1 = true.
Proof.
  apply (add_funds_never_lowers env0 "alice" f0_1 f0_3 small_accounts).
  - repeat constructor.
  - reflexivity.
  - reflexivity.
Defined.

(** X16. A NaN amount (or rate) is rejected by a precondition of each of
    [add_funds], [withdraw_funds], [transfer], [apply_interest] and
    [real_time_update], with the state left as it was. *)
Theorem nan_amount_rejected (c : Call) (x : float) (s : WalletSystem) :
  amount_of c = Some x ->
  (x =? x) = false ->
  exists msg, call c s = (Raise (AssertionError msg), s).
Proof.
  intros Hc Hx. destruct (nan_comparisons x Hx) as [Hlt Habs].
  destruct c; cbn [amount_of] in Hc; try discriminate Hc;
    injection Hc as ->; cbn [call].
  - apply add_funds_rejects. unfold add_funds_requires, fgt.
    destruct (get _ _); [now rewrite Hlt|reflexivity].
  - apply withdraw_funds_rejects. unfold withdraw_funds_requires.
    destruct (get _ _); [|reflexivity].
    rewrite Hlt. cbn [andb]. now rewrite andb_false_r.
  - apply transfer_rejects. unfold transfer_requires, fgt.
    destruct (get _ _); [destruct (get _ _)|]; try reflexivity.
    rewrite Hlt. now rewrite andb_false_r.
  - apply apply_interest_rejects. unfold apply_interest_requires.
    now rewrite Hlt.
  - apply real_time_update_rejects. unfold real_time_update_requires, fgt.
    destruct (get _ _); [|reflexivity].
    rewrite Hlt, Habs. cbn [orb]. now rewrite andb_false_r.
Qed.

Lemma nan_amount_rejected_witness :
  exists msg,
    call (CTransfer env0 "alice" "bob" nan) two_accounts
    = (Raise (AssertionError msg), two_accounts).
Proof.
  apply (nan_amount_rejected (CTransfer env0 "alice" "bob" nan) nan two_accounts);
    reflexivity.
Defined.

(** X17. [real_time_update(u, float('inf'))] on a non-negative balance
    passes R1-R4, writes the balance [inf] and appends the credit record,
    and only then raises [AssertionError] at E1. *)
Theorem infinite_credit_is_written (env : Env) (u : string) (b : float)
    (s : WalletSystem) :
  get (balances s) u = Some b ->
  fge b 0 = true ->
  let s' := state_after (real_time_update env u inf) s in
  result_of (real_time_update env u inf) s
  = Raise (AssertionError "E1 violated")
  /\ get (balances s') u = Some inf
  /\ transactions s' = transactions s ++ [update_tx env u inf].
Proof.
  intros Hb Hb0 s'. unfold s', state_after, result_of, real_time_update.
  assert (fne inf 0 = true) as H1 by reflexivity.
  assert (fgt inf 0 = true) as H2 by reflexivity.
  assert (fge (b + inf) 0 = true) as H3 by (now rewrite add_inf).
  assert ((abs (b + inf - (b + inf)) <? tol_1e9) = false) as H4
    by (now rewrite add_inf).
  mrun. cbn [fst snd]. rewrite add_inf by exact Hb0.
  repeat split. apply get_setitem_same.
Qed.

Lemma infinite_credit_is_written_witness :
  let s' := state_after (real_time_update env0 "alice" inf) two_accounts in
  result_of (real_time_update env0 "alice" inf) two_accounts
  = Raise (AssertionError "E1 violated")
  /\ get (balances s') "alice" = Some inf
  /\ transactions s' = transactions two_accounts ++ [update_tx env0 "alice" inf].
Proof.
  apply (infinite_credit_is_written env0 "alice" 500 two_accounts); reflexivity.
Defined.
